(** * backupstore/util: checksums, compression pipeline, command executor
      and mount-point reconciliation

    A shallow embedding of [util/util.go] and of the [util/compression]
    packages.  Go values are modelled as follows.

    - [[]byte] is [list byte]; [string] is [string] (a Go string is a byte
      sequence, a Rocq string a sequence of 8-bit [ascii]).
    - [error] is the inductive [error]; a nil error is [None].
    - A Go function returning [(T, error)] with [T] nil on failure is a
      [result T]; one that returns both components is a pair.
    - Imported packages (crypto/sha512, compress/gzip, pierrec/lz4,
      klauspost/zstd, k8s mount-utils, fscrypt, os/exec) are not part of
      the repository: they enter as records of operations.
    - Every call into an imported package is recorded in a trace, so that
      "nothing was done" and "called exactly once" can be stated. *)

From Stdlib Require Import Strings.String Strings.Ascii Strings.Byte ZArith NArith Lia.
From stdpp Require Import base option list vector gmap strings.

Open Scope string_scope.
Open Scope list_scope.

(** ** Errors and results *)

Inductive error : Type :=
| Errorf (msg : string)
    (* fmt.Errorf(format, args...) evaluated in this repository; [msg] is
       the formatted text *)
| External (msg : string)
    (* an error value created inside an imported package *)
| withMessage (cause : error) (msg : string).
    (* github.com/pkg/errors: Wrapf(cause, format, args...) for a non-nil
       cause *)

Inductive result (A : Type) : Type :=
| Ok (a : A)
| Err (e : error).
Arguments Ok {A} a.
Arguments Err {A} e.

(** [err.Error()] *)
Fixpoint Error (e : error) : string :=
  match e with
  | Errorf msg => msg
  | External msg => msg
  | withMessage cause msg => msg +:+ ": " +:+ Error cause
  end.

(** [errors.Cause(err)] of github.com/pkg/errors *)
Fixpoint Cause (e : error) : error :=
  match e with
  | withMessage cause _ => Cause cause
  | _ => e
  end.

(** [errors.Wrapf(err, format, args...)]: nil stays nil. *)
Definition Wrapf (err : option error) (msg : string) : option error :=
  match err with
  | None => None
  | Some cause => Some (withMessage cause msg)
  end.

(** The [%v] verb of package fmt for the argument types util.go uses. *)
Definition fmt_strings (args : list string) : string :=
  "[" +:+ String.concat " " args +:+ "]".

Definition fmt_error (err : option error) : string :=
  match err with
  | None => "<nil>"
  | Some e => Error e
  end.

(** ** Package strings *)

(** [strings.Contains(s, substr)] *)
Fixpoint Contains (s substr : string) : bool :=
  String.prefix substr s ||
  match s with
  | EmptyString => false
  | String _ s' => Contains s' substr
  end.

(** [strings.Split(s, sep)] for a non-empty [sep]: [cur] is the piece being
    collected, [skip] the number of bytes of a separator still to drop. *)
Fixpoint Split_from (sep : string) (skip : nat) (cur s : string) : list string :=
  match s with
  | EmptyString => [cur]
  | String c s' =>
      match skip with
      | S k => Split_from sep k cur s'
      | O =>
          if String.prefix sep s
          then cur :: Split_from sep (String.length sep - 1) "" s'
          else Split_from sep 0 (cur +:+ String c "") s'
      end
  end.

Definition Split (s sep : string) : list string := Split_from sep 0 "" s.

(** ** Package encoding/hex *)

Definition hextable : string := "0123456789abcdef".

Definition hexchar (n : N) : ascii :=
  match String.get (N.to_nat n) hextable with
  | Some c => c
  | None => "0"%char
  end.

(** [hex.EncodeToString(src)]: [hextable[v>>4]] then [hextable[v&0x0f]]. *)
Fixpoint EncodeToString (src : list byte) : string :=
  match src with
  | [] => ""
  | v :: rest =>
      String (hexchar (N.shiftr (Byte.to_N v) 4))
        (String (hexchar (N.land (Byte.to_N v) 15)) (EncodeToString rest))
  end.

Definition is_lower_hex (c : ascii) : bool :=
  existsb (Ascii.eqb c) (list_ascii_of_string hextable).

(** ** Streams *)

(** What a function of an imported package hands back: a value, or the
    message of an error value of that package. *)
Inductive ext (A : Type) : Type :=
| Ret (a : A)
| Raise (msg : string).
Arguments Ret {A} a.
Arguments Raise {A} msg.

Definition ext_result {A} (x : ext A) : result A :=
  match x with
  | Ret a => Ok a
  | Raise msg => Err (External msg)
  end.

Definition ext_error (x : option string) : option error :=
  match x with
  | Some msg => Some (External msg)
  | None => None
  end.

(** An [io.Reader] seen from its consumer: the bytes it yields before it
    stops, and the error it stops with ([None] for io.EOF). *)
Record Reader : Type := mkReader {
  content : list byte;
  failure : option string
}.

(** [bytes.NewReader(b)] *)
Definition bytes_NewReader (b : list byte) : Reader :=
  {| content := b; failure := None |}.

(** [ioutil.ReadAll(r)] on a reader that is not a decompressor *)
Definition io_ReadAll (r : Reader) : ext (list byte) :=
  match failure r with
  | Some msg => Raise msg
  | None => Ret (content r)
  end.

(** ** Imported packages *)

(** [[64]byte], the result type of [sha512.Sum512]. *)
Definition array64 : Type := vec byte 64.

(** A compressing [io.WriteCloser] that writes into a [bytes.Buffer], and
    the matching decompressing reader. *)
Record StreamCodec : Type := {
  writer : Type;
  Write : writer -> list byte -> list byte -> writer * list byte * option string;
    (* w.Write(p) on the buffer contents: new writer, new contents, error *)
  Close : writer -> list byte -> list byte;
    (* w.Close(): the buffer contents once the stream is finalised *)
  reader : Type;
  ReadAll : reader -> ext (list byte)
    (* ioutil.ReadAll(r) *)
}.

(** compress/gzip: [NewWriter] cannot fail; [NewReader] reads the header
    and can. *)
Record GzipPkg : Type := {
  gzip_codec :> StreamCodec;
  gzip_NewWriter : writer gzip_codec;
  gzip_NewReader : Reader -> ext (reader gzip_codec)
}.

(** github.com/pierrec/lz4/v4: neither constructor can fail. *)
Record Lz4Pkg : Type := {
  lz4_codec :> StreamCodec;
  lz4_NewWriter : writer lz4_codec;
  lz4_NewReader : Reader -> reader lz4_codec
}.

(** github.com/klauspost/compress/zstd: both constructors can fail. *)
Record ZstdPkg : Type := {
  zstd_codec :> StreamCodec;
  zstd_NewWriter : ext (writer zstd_codec);
  zstd_NewReader : Reader -> ext (reader zstd_codec)
}.

Record Imports : Type := {
  sha512_Sum512 : list byte -> array64;
  compress_gzip : GzipPkg;
  pierrec_lz4 : Lz4Pkg;
  klauspost_zstd : ZstdPkg
}.

(** ** Traced computations *)

(** One entry per call into an imported package. *)
Inductive Call : Type :=
| CallNewWriter (pkg : string)
| CallWrite (pkg : string) (p : list byte)
| CallClose (pkg : string)
| CallNewReader (pkg : string)
| CallReadAll (pkg : string)
| CallSum512 (data : list byte)
| CallIsMountPoint (dir : string)
| CallCleanupMountWithForce (dir : string) (timeout : Z)
| CallCleanupMountPoint (dir : string)
| CallGetMount (dir : string)
| LogInfof (msg : string)
| LogErrorf (err : error) (msg : string).

(** State passing, with stdpp's monad notations [x ← m; k] and [m;; k]. *)
Definition State (S A : Type) : Type := S -> A * S.

#[global] Instance State_ret {S} : MRet (State S) := fun A a s => (a, s).

#[global] Instance State_bind {S} : MBind (State S) :=
  fun A B k m s => let (a, s') := m s in k a s'.

(** The pipeline keeps no state besides the trace. *)
Definition Traced : Type -> Type := State (list Call).

Definition emit (c : Call) : Traced unit := fun t => (tt, t ++ [c]).

Definition run {A} (m : Traced A) : A * list Call := m [].

(** ** Package strings: prefixes, suffixes, trimming, replacing *)

(** [s[n:]] *)
Fixpoint string_drop (n : nat) (s : string) : string :=
  match n, s with
  | O, _ => s
  | S n', String _ s' => string_drop n' s'
  | S _, EmptyString => EmptyString
  end.

(** [strings.HasPrefix(s, prefix)] *)
Definition HasPrefix (s prefix : string) : bool := String.prefix prefix s.

(** [strings.HasSuffix(s, suffix)]:
    [len(s) >= len(suffix) && s[len(s)-len(suffix):] == suffix] *)
Definition HasSuffix (s suffix : string) : bool :=
  Nat.leb (String.length suffix) (String.length s) &&
  String.eqb (string_drop (String.length s - String.length suffix) s) suffix.

(** [strings.TrimPrefix(s, prefix)] *)
Definition TrimPrefix (s prefix : string) : string :=
  if HasPrefix s prefix then string_drop (String.length prefix) s else s.

(** [strings.TrimSuffix(s, suffix)] *)
Definition TrimSuffix (s suffix : string) : string :=
  if HasSuffix s suffix
  then substring 0 (String.length s - String.length suffix) s
  else s.

(** [strings.TrimLeft(s, cutset)] for a cutset of ASCII characters. *)
Fixpoint TrimLeft (s cutset : string) : string :=
  match s with
  | EmptyString => EmptyString
  | String c s' =>
      if existsb (Ascii.eqb c) (list_ascii_of_string cutset)
      then TrimLeft s' cutset
      else s
  end.

(** [strings.Replace(s, old, new, n)] for a non-empty [old]: the leftmost
    non-overlapping occurrences, at most [n] of them, all of them for a
    negative [n].  [skip] counts the bytes of a matched [old] still to
    drop. *)
Fixpoint Replace_from (old new : string) (skip : nat) (n : Z) (s : string) : string :=
  match s with
  | EmptyString => EmptyString
  | String c s' =>
      match skip with
      | S k => Replace_from old new k n s'
      | O =>
          if (n =? 0)%Z then s
          else if String.prefix old s
               then new +:+ Replace_from old new (String.length old - 1) (n - 1) s'
               else String c (Replace_from old new 0 n s')
      end
  end.

Definition Replace (s old new : string) (n : Z) : string :=
  Replace_from old new 0 n s.

(** ** Package regexp: anchored matching by derivatives *)

Inductive regexp : Type :=
| Nothing                          (* no string *)
| Epsilon                            (* the empty string *)
| Class (p : ascii -> bool)      (* one character of a class *)
| Cat (r1 r2 : regexp)
| Alt (r1 r2 : regexp)
| Star (r : regexp).

(** [r+] *)
Definition Plus (r : regexp) : regexp := Cat r (Star r).

Fixpoint nullable (r : regexp) : bool :=
  match r with
  | Nothing => false
  | Epsilon => true
  | Class _ => false
  | Cat r1 r2 => nullable r1 && nullable r2
  | Alt r1 r2 => nullable r1 || nullable r2
  | Star _ => true
  end.

Fixpoint deriv (c : ascii) (r : regexp) : regexp :=
  match r with
  | Nothing => Nothing
  | Epsilon => Nothing
  | Class p => if p c then Epsilon else Nothing
  | Cat r1 r2 =>
      if nullable r1
      then Alt (Cat (deriv c r1) r2) (deriv c r2)
      else Cat (deriv c r1) r2
  | Alt r1 r2 => Alt (deriv c r1) (deriv c r2)
  | Star r' => Cat (deriv c r') (Star r')
  end.

(** [regexp.MustCompile("^" + r + "$").MatchString(s)] *)
Fixpoint MatchString (r : regexp) (s : string) : bool :=
  match s with
  | EmptyString => nullable r
  | String c s' => MatchString (deriv c r) s'
  end.

(** A range [lo-hi] inside a bracket expression. *)
Definition in_range (lo hi c : ascii) : bool :=
  (N_of_ascii lo <=? N_of_ascii c)%N && (N_of_ascii c <=? N_of_ascii hi)%N.

(** ** Packages util/compression/{zstd,gzip,lz4} and util/compression *)

Module zstd.
Section WithImports.
Context (imp : Imports).
Local Abbreviation zs := (klauspost_zstd imp).

Definition AlgoName : string := "zstd".

Definition CompressData (data : list byte) : Traced (result Reader) :=
  let b : list byte := [] in
  emit (CallNewWriter "zstd");;
  match zstd_NewWriter zs with
  | Raise msg => mret (Err (External msg))
  | Ret w =>
      emit (CallWrite "zstd" data);;
      let '(w, b, err) := Write zs w data b in
      match err with
      | Some msg => emit (CallClose "zstd");; mret (Err (External msg))
      | None =>
          emit (CallClose "zstd");;
          mret (Ok (bytes_NewReader (Close zs w b)))
      end
  end.

Definition DecompressData (src : Reader) : Traced (result (list byte)) :=
  emit (CallNewReader "zstd");;
  match zstd_NewReader zs src with
  | Raise msg => mret (Err (External msg))
  | Ret r =>
      emit (CallReadAll "zstd");;
      let block := ReadAll zs r in
      emit (CallClose "zstd");;       (* defer r.Close() *)
      match block with
      | Raise msg => mret (Err (External msg))
      | Ret block => mret (Ok block)
      end
  end.
End WithImports.
End zstd.

Module gzip.
Section WithImports.
Context (imp : Imports).
Local Abbreviation gz := (compress_gzip imp).

Definition AlgoName : string := "gzip".

Definition CompressData (data : list byte) : Traced (result Reader) :=
  let b : list byte := [] in
  emit (CallNewWriter "gzip");;
  let w := gzip_NewWriter gz in
  emit (CallWrite "gzip" data);;
  let '(w, b, err) := Write gz w data b in
  match err with
  | Some msg => emit (CallClose "gzip");; mret (Err (External msg))
  | None =>
      emit (CallClose "gzip");;
      mret (Ok (bytes_NewReader (Close gz w b)))
  end.

Definition DecompressData (src : Reader) : Traced (result (list byte)) :=
  emit (CallNewReader "gzip");;
  match gzip_NewReader gz src with
  | Raise msg => mret (Err (External msg))
  | Ret r =>
      emit (CallReadAll "gzip");;
      let block := ReadAll gz r in
      emit (CallClose "gzip");;       (* defer r.Close() *)
      match block with
      | Raise msg => mret (Err (External msg))
      | Ret block => mret (Ok block)
      end
  end.
End WithImports.
End gzip.

Module lz4.
Section WithImports.
Context (imp : Imports).
Local Abbreviation lz := (pierrec_lz4 imp).

Definition AlgoName : string := "lz4".

Definition CompressData (data : list byte) : Traced (result Reader) :=
  let b : list byte := [] in
  emit (CallNewWriter "lz4");;
  let w := lz4_NewWriter lz in
  emit (CallWrite "lz4" data);;
  let '(w, b, err) := Write lz w data b in
  match err with
  | Some msg => emit (CallClose "lz4");; mret (Err (External msg))
  | None =>
      emit (CallClose "lz4");;
      mret (Ok (bytes_NewReader (Close lz w b)))
  end.

Definition DecompressData (src : Reader) : Traced (result (list byte)) :=
  emit (CallNewReader "lz4");;
  let r := lz4_NewReader lz src in
  emit (CallReadAll "lz4");;
  match ReadAll lz r with
  | Raise msg => mret (Err (External msg))
  | Ret block => mret (Ok block)
  end.
End WithImports.
End lz4.

Module compression.
(** The [Compressor] interface. *)
Record Compressor : Type := {
  CompressData : list byte -> Traced (result Reader);
  DecompressData : Reader -> Traced (result (list byte))
}.

Definition Compressors (imp : Imports) : gmap string Compressor :=
  {[ gzip.AlgoName :=
       {| CompressData := gzip.CompressData imp;
          DecompressData := gzip.DecompressData imp |};
     zstd.AlgoName :=
       {| CompressData := zstd.CompressData imp;
          DecompressData := zstd.DecompressData imp |};
     lz4.AlgoName :=
       {| CompressData := lz4.CompressData imp;
          DecompressData := lz4.DecompressData imp |} ]}.
End compression.

(** ** Package util: checksum and compression pipeline (util.go) *)

Module util.
Section WithImports.
Context (imp : Imports).

Local Abbreviation gz := (compress_gzip imp).
Local Abbreviation lz := (pierrec_lz4 imp).

Definition PreservedChecksumLength : nat := 64.

(** [s[:n]] on a string; Go panics when [n] exceeds [len(s)]. *)
Definition slice_to (s : string) (n : nat) : string := substring 0 n s.

Definition GetChecksum (data : list byte) : string :=
  let checksumBytes := sha512_Sum512 imp data in
  let checksum :=
    slice_to (EncodeToString (vec_to_list checksumBytes)) PreservedChecksumLength in
  checksum.

(** [GetChecksum] as called from traced code. *)
Definition GetChecksum_call (data : list byte) : Traced string :=
  emit (CallSum512 data);; mret (GetChecksum data).

(** The dynamic types behind the [io.WriteCloser] that
    [newCompressionWriter] returns. *)
Inductive WriteCloser : Type :=
| gzipWriter (w : writer gz)
| lz4Writer (w : writer lz).

(** The dynamic types behind the [io.ReadCloser] that
    [newDecompressionReader] returns. *)
Inductive ReadCloser : Type :=
| nopCloser (r : Reader)              (* ioutil.NopCloser(r) *)
| gzipReader (r : reader gz)
| lz4NopCloser (r : reader lz).       (* ioutil.NopCloser(lz4.NewReader(r)) *)

(** [w.Write(data)] on [buffer] *)
Definition wc_Write (w : WriteCloser) (data buffer : list byte)
  : Traced (WriteCloser * list byte * option error) :=
  match w with
  | gzipWriter w =>
      emit (CallWrite "gzip" data);;
      let '(w', buffer', err) := Write gz w data buffer in
      mret (gzipWriter w', buffer', ext_error err)
  | lz4Writer w =>
      emit (CallWrite "lz4" data);;
      let '(w', buffer', err) := Write lz w data buffer in
      mret (lz4Writer w', buffer', ext_error err)
  end.

(** [w.Close()] on [buffer]; its error is dropped by every caller. *)
Definition wc_Close (w : WriteCloser) (buffer : list byte) : Traced (list byte) :=
  match w with
  | gzipWriter w => emit (CallClose "gzip");; mret (Close gz w buffer)
  | lz4Writer w => emit (CallClose "lz4");; mret (Close lz w buffer)
  end.

(** [ioutil.ReadAll(r)] *)
Definition rc_ReadAll (r : ReadCloser) : Traced (result (list byte)) :=
  match r with
  | nopCloser r => emit (CallReadAll "io");; mret (ext_result (io_ReadAll r))
  | gzipReader r => emit (CallReadAll "gzip");; mret (ext_result (ReadAll gz r))
  | lz4NopCloser r => emit (CallReadAll "lz4");; mret (ext_result (ReadAll lz r))
  end.

(** [r.Close()]: a no-op for the two [NopCloser]s. *)
Definition rc_Close (r : ReadCloser) : Traced unit :=
  match r with
  | gzipReader _ => emit (CallClose "gzip")
  | _ => mret tt
  end.

Definition newCompressionWriter (method : string) : Traced (result WriteCloser) :=
  if String.eqb method "gzip" then
    emit (CallNewWriter "gzip");; mret (Ok (gzipWriter (gzip_NewWriter gz)))
  else if String.eqb method "lz4" then
    emit (CallNewWriter "lz4");; mret (Ok (lz4Writer (lz4_NewWriter lz)))
  else
    mret (Err (Errorf ("unsupported compression method: " +:+ method))).

Definition newDecompressionReader (method : string) (r : Reader)
  : Traced (result ReadCloser) :=
  if String.eqb method "none" then
    mret (Ok (nopCloser r))
  else if String.eqb method "gzip" then
    emit (CallNewReader "gzip");;
    match gzip_NewReader gz r with
    | Ret zr => mret (Ok (gzipReader zr))
    | Raise msg => mret (Err (External msg))
    end
  else if String.eqb method "lz4" then
    emit (CallNewReader "lz4");; mret (Ok (lz4NopCloser (lz4_NewReader lz r)))
  else
    mret (Err (Errorf ("unsupported decompression method: " +:+ method))).

Definition CompressData (method : string) (data : list byte) : Traced (result Reader) :=
  if String.eqb method "none" then
    mret (Ok (bytes_NewReader data))
  else
    let buffer : list byte := [] in
    w ← newCompressionWriter method;
    match w with
    | Err err => mret (Err err)
    | Ok w =>
        '(w, buffer, err) ← wc_Write w data buffer;
        match err with
        | Some err => wc_Close w buffer;; mret (Err err)
        | None =>
            buffer ← wc_Close w buffer;
            mret (Ok (bytes_NewReader buffer))
        end
    end.

Definition DecompressAndVerify (method : string) (src : Reader) (checksum : string)
  : Traced (result Reader) :=
  r ← newDecompressionReader method src;
  match r with
  | Err err => mret (Err err)
  | Ok r =>
      res ← (block ← rc_ReadAll r;
             match block with
             | Err err => mret (Err err)
             | Ok block =>
                 sum ← GetChecksum_call block;
                 if negb (String.eqb sum checksum) then
                   mret (Err (Errorf "checksum verification failed for block"))
                 else
                   mret (Ok (bytes_NewReader block))
             end);
      rc_Close r;;                    (* defer r.Close() *)
      mret res
  end.

End WithImports.

(** *** Command executor *)

(** [execute] starts a goroutine that assigns the shared variables
    [output, err] when [cmd.CombinedOutput()] returns and then closes
    [done]; the caller's [select] takes whichever of [done] and
    [ctx.Done()] is ready.  An [Observation] is what the caller sees: the
    case selected and the values the two variables hold when it reads them. *)
Inductive Selected : Type :=
| caseDone           (* case <-done *)
| caseCtxDone.       (* case <-ctx.Done() *)

Record Observation : Type := {
  selected : Selected;
  output : list byte;
  err : option error
}.

(** [time.Duration] counts nanoseconds. *)
Definition Second : Z := 1000000000.
Definition Minute : Z := 60 * Second.

Definition cmdTimeout : Z := Minute.
Definition forceCleanupMountTimeout : Z := 30 * Second.

Definition newline : string := String (ascii_of_nat 10) "".

Section WithProcesses.
(** os/exec and the scheduler: what running [binary args] under a context
    with the given timeout lets [execute] observe. *)
Context (spawn : Z -> string -> list string -> Observation).

Definition execute (ctx : Z) (binary : string) (args : list string)
  : string * option error :=
  let obs := spawn ctx binary args in
  match selected obs with
  | caseCtxDone =>
      ("", Some (Errorf ("timeout executing: " +:+ binary +:+ " " +:+ fmt_strings args
                         +:+ ", output " +:+ string_of_list_byte (output obs)
                         +:+ ", error " +:+ fmt_error (err obs))))
  | caseDone =>
      match err obs with
      | Some _ =>
          ("", Some (Errorf ("failed to execute: " +:+ binary +:+ " " +:+ fmt_strings args
                             +:+ ", output " +:+ string_of_list_byte (output obs)
                             +:+ ", error " +:+ fmt_error (err obs))))
      | None => (string_of_list_byte (output obs), None)
      end
  end.

Definition Execute (binary : string) (args : list string) : string * option error :=
  let ctx := cmdTimeout in
  execute ctx binary args.

Definition ExecuteWithCustomTimeout (binary : string) (args : list string) (timeout : Z)
  : string * option error :=
  let ctx := timeout in
  execute ctx binary args.

Definition IsMounted (mountPoint : string) : bool :=
  let '(output, err) := Execute "mount" [] in
  match err with
  | Some _ => false
  | None =>
      let lines := Split output newline in
      existsb (fun line => Contains line (" " +:+ mountPoint +:+ " ")) lines
  end.
End WithProcesses.

(** *** Mount reconciliation *)

(** [fs.Mount], reduced to the field that is read. *)
Record Mount : Type := { FilesystemType : string }.

(** The mounter handed in by the caller together with the functions of
    k8s.io/mount-utils and fscrypt/filesystem that act on the host.  The
    host is a state of type [world]; every operation may change it. *)
Record MountSystem : Type := {
  world : Type;
  IsMountPoint : string -> world -> (bool * option error) * world;
    (* mounter.IsMountPoint(dir) *)
  isForceUnmounter : bool;
    (* whether the assertion mounter.(mount.MounterForceUnmounter) succeeds *)
  CleanupMountWithForce : string -> bool -> Z -> world -> option error * world;
    (* mount.CleanupMountWithForce(dir, forceUnmounter, extensive, timeout) *)
  CleanupMountPoint : string -> bool -> world -> option error * world;
    (* mount.CleanupMountPoint(dir, forceUnmounter, extensive), reached with
       the nil forceUnmounter of the failed assertion *)
  GetMount : string -> world -> result Mount * world
    (* fs.GetMount(dir) *)
}.

Section WithMountSystem.
Context (sys : MountSystem).

Definition Host : Type -> Type := State (world sys * list Call).

Definition log (c : Call) : Host unit :=
  fun '(w, t) => (tt, (w, t ++ [c])).

Definition call {A} (c : Call) (f : world sys -> A * world sys) : Host A :=
  fun '(w, t) => let (a, w') := f w in (a, (w', t ++ [c])).

Definition cleanupMount (mountDir : string) : Host (option error) :=
  if isForceUnmounter sys then
    log (LogInfof ("Trying to force clean up mountpoint " +:+ mountDir));;
    call (CallCleanupMountWithForce mountDir forceCleanupMountTimeout)
         (CleanupMountWithForce sys mountDir false forceCleanupMountTimeout)
  else
    log (LogInfof ("Trying to clean up mountpoint " +:+ mountDir));;
    call (CallCleanupMountPoint mountDir) (CleanupMountPoint sys mountDir false).

Definition CheckAndCleanupMountPoint (Kind mountDir : string)
  : Host (bool * option error) :=
  '(mounted, err) ← call (CallIsMountPoint mountDir) (IsMountPoint sys mountDir);
  returned ←
    match err with
    | Some _ =>
        mntErr ← cleanupMount mountDir;
        match mntErr with
        | Some mntErr =>
            log (LogErrorf mntErr ("Failed to unmount corrupted mountpoint " +:+ mountDir));;
            mret (Some (true, Wrapf err ("Failed to unmount corrupted mountpoint " +:+ mountDir)))
        | None => mret None
        end
    | None => mret None
    end;
  match returned with
  | Some r => mret r
  | None =>
      if negb mounted then mret (false, None)
      else
        r ← call (CallGetMount mountDir) (GetMount sys mountDir);
        (* [mnt, err := fs.GetMount(mountDir)] assigns the same [err] again *)
        let err : option error :=
          match r with Err e => Some e | Ok _ => None end in
        match r with
        | Err _ => mret (true, Wrapf err ("Failed to get mount for " +:+ mountDir))
        | Ok mnt =>
            if Contains (FilesystemType mnt) Kind then mret (true, None)
            else
              mntErr ← cleanupMount mountDir;
              match mntErr with
              | Some mntErr =>
                  let msg := "Failed to unmount mountpoint " +:+ FilesystemType mnt
                             +:+ " (" +:+ mountDir +:+ ") for " +:+ Kind +:+ " protocol" in
                  log (LogErrorf mntErr msg);;
                  mret (true, Wrapf err msg)
              | None => mret (false, None)
              end
        end
  end.
End WithMountSystem.

(** *** Names *)

Section WithUUID.
(** [uuid.New().String()], a fresh random UUID at every call. *)
Context (uuid_New_String : string).

Definition NewUUID : string := uuid_New_String.

Definition GenerateName (prefix : string) : string :=
  let suffix := Replace NewUUID "-" "" (-1) in
  prefix +:+ "-" +:+ slice_to suffix 16.
End WithUUID.

(** [[a-zA-Z0-9]] *)
Definition alnum (c : ascii) : bool :=
  in_range "a" "z" c || in_range "A" "Z" c || in_range "0" "9" c.

(** [[a-zA-Z0-9_.-]] *)
Definition name_char (c : ascii) : bool :=
  in_range "a" "z" c || in_range "A" "Z" c || in_range "0" "9" c ||
  Ascii.eqb c "_" || Ascii.eqb c "." || Ascii.eqb c "-".

Definition ValidateName (name : string) : bool :=
  (* ^[a-zA-Z0-9][a-zA-Z0-9_.-]+$ *)
  let validName := Cat (Class alnum) (Plus (Class name_char)) in
  MatchString validName name.

(** The names extracted, and the messages passed to [logrus.Errorf]. *)
Definition ExtractNames (names : list string) (prefix suffix : string)
  : list string * list string :=
  fold_left
    (fun '(result, logged) f =>
       (* Remove additional slash if exists *)
       let f := TrimLeft f "/" in
       (* missing prefix or suffix *)
       if negb (HasPrefix f prefix) || negb (HasSuffix f suffix) then (result, logged)
       else
         let f := TrimPrefix f prefix in
         let f := TrimSuffix f suffix in
         if negb (ValidateName f) then
           (result,
            logged ++ ["Invalid name " +:+ f +:+ " was processed to extract name with prefix "
                       +:+ prefix +:+ " suffix " +:+ suffix])
         else (result ++ [f], logged))
    names ([], []).

(** *** Slices of strings *)

Definition UnorderedEqual (x y : list string) : bool :=
  if negb (Nat.eqb (length x) (length y)) then false
  else
    let known : gmap string unit :=
      fold_left (fun known value => <[value := tt]> known) x ∅ in
    forallb (fun value => bool_decide (is_Some (known !! value))) y.

Definition Filter (elements : list string) (predicate : string -> bool) : list string :=
  fold_left
    (fun filtered elem => if predicate elem then filtered ++ [elem] else filtered)
    elements [].

(** *** URLs *)

Definition UnescapeURL (url : string) : string :=
  (* Deal with escape in url inputted from bash *)
  let result := Replace url "\u0026" "&" 1 in
  let result := Replace result "u0026" "&" 1 in
  result.

(** *** File checksum *)

Section WithFiles.
(** [os.Open], whose file is read to its end by [io.Copy(h, f)], and
    SHA-256 ([sha256.New()], [h.Sum(nil)]).  The deferred [f.Close()] does
    not change what is returned. *)
Context (os_Open : string -> ext Reader) (sha256_Sum : list byte -> vec byte 32).

Definition GetFileChecksum (filePath : string) : string * option error :=
  match os_Open filePath with
  | Raise msg => ("", Some (External msg))
  | Ret f =>
      match io_ReadAll f with                       (* io.Copy(h, f) *)
      | Raise msg => ("", Some (External msg))
      | Ret written => (EncodeToString (vec_to_list (sha256_Sum written)), None)
      end
  end.
End WithFiles.

End util.

(** ** An instance of the imports, for running the model

    The digest is SHA-512 itself.  The codecs are stored-block codecs: a
    one-byte magic header, written lazily by the first [Write] or by
    [Close] as compress/gzip does with its header, followed by the payload
    as it is. *)

Definition stored (magic : byte) : StreamCodec := {|
  writer := bool;                       (* header already written *)
  Write := fun w p buf => (true, buf ++ (if w then [] else [magic]) ++ p, None);
  Close := fun w buf => if w then buf else buf ++ [magic];
  reader := list byte;
  ReadAll := fun r => Ret r
|}.

Definition stored_NewReader (magic : byte) (src : Reader) : ext (list byte) :=
  match failure src with
  | Some msg => Raise msg
  | None =>
      match content src with
      | [] => Raise "unexpected EOF"
      | b :: rest => if Byte.eqb b magic then Ret rest else Raise "invalid header"
      end
  end.

Definition stored_payload (magic : byte) (src : Reader) : list byte :=
  match stored_NewReader magic src with
  | Ret rest => rest
  | Raise _ => []
  end.

(** crypto/sha512 after FIPS 180-4, on 64-bit words held in [Z]. *)
Module sha512.
Local Open Scope Z_scope.

Definition wrap (x : Z) : Z := x mod 2 ^ 64.
Definition add (x y : Z) : Z := wrap (x + y).
Definition rotr (n x : Z) : Z :=
  Z.lor (Z.shiftr x n) (wrap (Z.shiftl x (64 - n))).
Definition not64 (x : Z) : Z := Z.lxor x (2 ^ 64 - 1).

Definition Ch (x y z : Z) : Z := Z.lxor (Z.land x y) (Z.land (not64 x) z).
Definition Maj (x y z : Z) : Z :=
  Z.lxor (Z.lxor (Z.land x y) (Z.land x z)) (Z.land y z).
Definition Sigma0 (x : Z) : Z := Z.lxor (Z.lxor (rotr 28 x) (rotr 34 x)) (rotr 39 x).
Definition Sigma1 (x : Z) : Z := Z.lxor (Z.lxor (rotr 14 x) (rotr 18 x)) (rotr 41 x).
Definition sigma0 (x : Z) : Z := Z.lxor (Z.lxor (rotr 1 x) (rotr 8 x)) (Z.shiftr x 7).
Definition sigma1 (x : Z) : Z := Z.lxor (Z.lxor (rotr 19 x) (rotr 61 x)) (Z.shiftr x 6).

Definition K : list Z :=
  [
   0x428a2f98d728ae22; 0x7137449123ef65cd; 0xb5c0fbcfec4d3b2f; 0xe9b5dba58189dbbc;
   0x3956c25bf348b538; 0x59f111f1b605d019; 0x923f82a4af194f9b; 0xab1c5ed5da6d8118;
   0xd807aa98a3030242; 0x12835b0145706fbe; 0x243185be4ee4b28c; 0x550c7dc3d5ffb4e2;
   0x72be5d74f27b896f; 0x80deb1fe3b1696b1; 0x9bdc06a725c71235; 0xc19bf174cf692694;
   0xe49b69c19ef14ad2; 0xefbe4786384f25e3; 0x0fc19dc68b8cd5b5; 0x240ca1cc77ac9c65;
   0x2de92c6f592b0275; 0x4a7484aa6ea6e483; 0x5cb0a9dcbd41fbd4; 0x76f988da831153b5;
   0x983e5152ee66dfab; 0xa831c66d2db43210; 0xb00327c898fb213f; 0xbf597fc7beef0ee4;
   0xc6e00bf33da88fc2; 0xd5a79147930aa725; 0x06ca6351e003826f; 0x142929670a0e6e70;
   0x27b70a8546d22ffc; 0x2e1b21385c26c926; 0x4d2c6dfc5ac42aed; 0x53380d139d95b3df;
   0x650a73548baf63de; 0x766a0abb3c77b2a8; 0x81c2c92e47edaee6; 0x92722c851482353b;
   0xa2bfe8a14cf10364; 0xa81a664bbc423001; 0xc24b8b70d0f89791; 0xc76c51a30654be30;
   0xd192e819d6ef5218; 0xd69906245565a910; 0xf40e35855771202a; 0x106aa07032bbd1b8;
   0x19a4c116b8d2d0c8; 0x1e376c085141ab53; 0x2748774cdf8eeb99; 0x34b0bcb5e19b48a8;
   0x391c0cb3c5c95a63; 0x4ed8aa4ae3418acb; 0x5b9cca4f7763e373; 0x682e6ff3d6b2b8a3;
   0x748f82ee5defb2fc; 0x78a5636f43172f60; 0x84c87814a1f0ab72; 0x8cc702081a6439ec;
   0x90befffa23631e28; 0xa4506cebde82bde9; 0xbef9a3f7b2c67915; 0xc67178f2e372532b;
   0xca273eceea26619c; 0xd186b8c721c0c207; 0xeada7dd6cde0eb1e; 0xf57d4f7fee6ed178;
   0x06f067aa72176fba; 0x0a637dc5a2c898a6; 0x113f9804bef90dae; 0x1b710b35131c471b;
   0x28db77f523047d84; 0x32caab7b40c72493; 0x3c9ebe0a15c9bebc; 0x431d67c49c100d4c;
   0x4cc5d4becb3e42b6; 0x597f299cfc657e2a; 0x5fcb6fab3ad6faec; 0x6c44198c4a475817
  ].

Definition H0 : list Z :=
  [
   0x6a09e667f3bcc908; 0xbb67ae8584caa73b; 0x3c6ef372fe94f82b; 0xa54ff53a5f1d36f1;
   0x510e527fade682d1; 0x9b05688c2b3e6c1f; 0x1f83d9abfb41bd6b; 0x5be0cd19137e2179
  ].

Definition byte_of_Z (z : Z) : byte :=
  match Byte.of_N (Z.to_N (z mod 256)) with
  | Some b => b
  | None => x00
  end.

Definition Z_of_byte (b : byte) : Z := Z.of_N (Byte.to_N b).

(** Big-endian bytes of the low [8 * n] bits of [z]. *)
Fixpoint be_bytes (n : nat) (z : Z) : list byte :=
  match n with
  | O => []
  | S n' => be_bytes n' (Z.shiftr z 8) ++ [byte_of_Z z]
  end.

Definition be_word (bs : list byte) : Z :=
  fold_left (fun acc b => Z.lor (Z.shiftl acc 8) (Z_of_byte b)) bs 0.

(** The message, 0x80, zeros up to 112 modulo 128, the bit length on 16 bytes. *)
Definition padded (msg : list byte) : list byte :=
  let len := Z.of_nat (length msg) in
  let zeros := Z.to_nat ((111 - len) mod 128) in
  msg ++ [x80] ++ replicate zeros x00 ++ be_bytes 16 (8 * len).

Fixpoint chunks (n fuel : nat) (l : list byte) : list (list byte) :=
  match fuel with
  | O => []
  | S fuel' =>
      match l with
      | [] => []
      | _ => take n l :: chunks n fuel' (drop n l)
      end
  end.

(** The message schedule: [w] holds W(t-1) .. W(0), newest first. *)
Fixpoint schedule (rounds : nat) (w : list Z) : list Z :=
  match rounds with
  | O => w
  | S r =>
      let get i := nth i w 0 in
      schedule r (add (add (sigma1 (get 1%nat)) (get 6%nat))
                      (add (sigma0 (get 14%nat)) (get 15%nat)) :: w)
  end.

Definition round (s : list Z) (kw : Z * Z) : list Z :=
  match s with
  | [a; b; c; d; e; f; g; h] =>
      let T1 := add (add (add h (Sigma1 e)) (add (Ch e f g) (fst kw))) (snd kw) in
      let T2 := add (Sigma0 a) (Maj a b c) in
      [add T1 T2; a; b; c; add d T1; e; f; g]
  | _ => s
  end.

Definition compress (h : list Z) (block : list byte) : list Z :=
  let w16 := rev (map be_word (chunks 8 16 block)) in
  let w := rev (schedule 64 w16) in
  zip_with add h (fold_left round (zip K w) h).

Definition digest (msg : list byte) : list byte :=
  let p := padded msg in
  flat_map (be_bytes 8) (fold_left compress (chunks 128 (length p) p) H0).

End sha512.

(** A list as an array of [n] bytes: cut, or filled up with zeros. *)
Fixpoint pad (n : nat) (data : list byte) : vec byte n :=
  match n with
  | O => [#]
  | S n' =>
      match data with
      | [] => x00 ::: pad n' []
      | b :: rest => b ::: pad n' rest
      end
  end.

Definition sample_imports : Imports := {|
  sha512_Sum512 := fun data => pad 64 (sha512.digest data);
  compress_gzip :=
    {| gzip_codec := stored x1f;
       gzip_NewWriter := false;
       gzip_NewReader := stored_NewReader x1f |};
  pierrec_lz4 :=
    {| lz4_codec := stored x04;
       lz4_NewWriter := false;
       lz4_NewReader := stored_payload x04 |};
  klauspost_zstd :=
    {| zstd_codec := stored x28;
       zstd_NewWriter := Ret false;
       zstd_NewReader := stored_NewReader x28 |}
|}.

Definition bytes_of (s : string) : list byte := list_byte_of_string s.

(** ** Vocabulary of the properties and sample runs *)

(** Closed decidable propositions are settled by evaluation. *)
Ltac decide_closed := apply (bool_decide_unpack _); vm_compute; exact I.

(** The names [util.CompressData] and [util.DecompressAndVerify] accept. *)
Definition accepted : list string := ["none"; "gzip"; "lz4"].

(** The names the specification lists for the pipeline and the registry. *)
Definition listed : list string := ["none"; "gzip"; "zstd"; "lz4"].

Definition UnsupportedCompression (method : string) : error :=
  Errorf ("unsupported compression method: " +:+ method).

Definition UnsupportedDecompression (method : string) : error :=
  Errorf ("unsupported decompression method: " +:+ method).

(** What a round trip needs from the imported codecs: the stream left in
    an empty buffer by [NewWriter], [Write(data)], [Close()] decodes to
    [data]. *)
Definition gzip_round_trips (gz : GzipPkg) : Prop :=
  forall data,
    let '(w, buf, err) := Write gz (gzip_NewWriter gz) data [] in
    err = None /\
    exists r, gzip_NewReader gz (bytes_NewReader (Close gz w buf)) = Ret r /\
              ReadAll gz r = Ret data.

Definition lz4_round_trips (lz : Lz4Pkg) : Prop :=
  forall data,
    let '(w, buf, err) := Write lz (lz4_NewWriter lz) data [] in
    err = None /\
    ReadAll lz (lz4_NewReader lz (bytes_NewReader (Close lz w buf))) = Ret data.

Definition zstd_round_trips (zs : ZstdPkg) : Prop :=
  forall data,
    exists w0, zstd_NewWriter zs = Ret w0 /\
    let '(w, buf, err) := Write zs w0 data [] in
    err = None /\
    exists r, zstd_NewReader zs (bytes_NewReader (Close zs w buf)) = Ret r /\
              ReadAll zs r = Ret data.

(** [DecompressAndVerify(method, CompressData(method, data),
    GetChecksum(data))] succeeds with a stream over [data]. *)
Definition round_trips (imp : Imports) (method : string) (data : list byte) : Prop :=
  exists stream t t',
    run (util.CompressData imp method data) = (Ok stream, t) /\
    util.DecompressAndVerify imp method stream (util.GetChecksum imp data) t
      = (Ok (bytes_NewReader data), t') /\
    io_ReadAll (bytes_NewReader data) = Ret data.

(** Unfolding the monad and the dispatch on the dynamic type. *)
Ltac run_traced :=
  unfold util.CompressData, util.DecompressAndVerify,
    util.newCompressionWriter, util.newDecompressionReader,
    util.wc_Write, util.wc_Close, util.rc_ReadAll, util.rc_Close,
    util.GetChecksum_call, run;
  cbn [String.eqb Ascii.eqb Bool.eqb andb];
  unfold mbind, State_bind, mret, State_ret, emit, ext_result, ext_error.

(** The two error kinds of [execute], told apart by how the message starts. *)
Definition is_timeout_error (e : error) : bool :=
  String.prefix "timeout executing: " (Error e).

Definition is_execution_error (e : error) : bool :=
  String.prefix "failed to execute: " (Error e).

(** An error message carries the command line, the output and the cause. *)
Definition carries (e : error) (binary : string) (args : list string)
    (output : list byte) (cause : option error) : Prop :=
  Contains (Error e) (binary +:+ " " +:+ fmt_strings args) = true /\
  Contains (Error e) (string_of_list_byte output) = true /\
  Contains (Error e) (fmt_error cause) = true.

(** Runs of an external command, for running the model. *)
Definition spawn_slow (_ : Z) (_ : string) (_ : list string) : util.Observation :=
  {| util.selected := util.caseCtxDone; util.output := []; util.err := None |}.

Definition spawn_failing (_ : Z) (_ : string) (_ : list string) : util.Observation :=
  {| util.selected := util.caseDone;
     util.output := bytes_of "permission denied";
     util.err := Some (External "exit status 32") |}.

Definition spawn_mount_table (_ : Z) (_ : string) (_ : list string) : util.Observation :=
  {| util.selected := util.caseDone;
     util.output :=
       bytes_of ("/dev/sda1 on / type ext4 (rw)" +:+ util.newline +:+
                 "10.0.0.7:/export on /var/lib/backups type nfs4 (rw)" +:+ util.newline);
     util.err := None |}.

Definition is_cleanup_call (c : Call) : bool :=
  match c with
  | CallCleanupMountWithForce _ _ | CallCleanupMountPoint _ => true
  | _ => false
  end.

(** How often [mount.CleanupMountWithForce] or [mount.CleanupMountPoint]
    was invoked. *)
Definition cleanup_calls (t : list Call) : nat :=
  length (List.filter is_cleanup_call t).

(** What the cleanup selected by [cleanupMount] does to the host. *)
Definition cleanup_on (sys : util.MountSystem) (mountDir : string)
    (w : util.world sys) : option error * util.world sys :=
  if util.isForceUnmounter sys
  then util.CleanupMountWithForce sys mountDir false util.forceCleanupMountTimeout w
  else util.CleanupMountPoint sys mountDir false w.

(** A host that answers every call the same way. *)
Definition scripted (probe : bool * option error) (force : bool)
    (cleanup : option error) (live : result util.Mount) : util.MountSystem :=
  {| util.world := unit;
     util.IsMountPoint := fun _ w => (probe, w);
     util.isForceUnmounter := force;
     util.CleanupMountWithForce := fun _ _ _ w => (cleanup, w);
     util.CleanupMountPoint := fun _ _ w => (cleanup, w);
     util.GetMount := fun _ w => (live, w) |}.

Definition nfs4 : util.Mount := {| util.FilesystemType := "nfs4" |}.

Ltac run_host :=
  unfold util.CheckAndCleanupMountPoint, util.cleanupMount, util.call, util.log,
    cleanup_on in *;
  unfold mbind, State_bind, mret, State_ret in *.

(** Membership of an entry in a trace that is written out. *)
Ltac in_trace :=
  repeat first [apply list_elem_of_here | apply list_elem_of_further].

(** Counting cleanup calls in a trace built from known pieces. *)
Ltac count_cleanups :=
  unfold cleanup_calls in *;
  repeat progress (cbn [List.filter is_cleanup_call length];
                   rewrite ?List.filter_app, ?length_app);
  lia.

Ltac run_check :=
  unfold util.CheckAndCleanupMountPoint, util.call, util.log;
  unfold mbind, State_bind, mret, State_ret.

Definition corrupted_msg (mountDir : string) : string :=
  "Failed to unmount corrupted mountpoint " +:+ mountDir.

Definition stale_handle : error := External "stale NFS file handle".
Definition target_busy : error := External "target is busy".

(** ** Vocabulary of the further properties *)

Definition ChecksumMismatch : error :=
  Errorf "checksum verification failed for block".

(** The entry of a trace that is a cleanup call agrees with the mounter:
    forced, on [mountDir] and with the 30 s timeout, when the mounter can
    force-unmount; plain otherwise. *)
Definition cleanup_tier_ok (sys : util.MountSystem) (mountDir : string) (c : Call) : Prop :=
  match c with
  | CallCleanupMountWithForce dir timeout =>
      util.isForceUnmounter sys = true /\ dir = mountDir /\
      timeout = 30000000000%Z
  | CallCleanupMountPoint dir =>
      util.isForceUnmounter sys = false /\ dir = mountDir
  | _ => True
  end.

Definition get_mount_msg (mountDir : string) : string :=
  "Failed to get mount for " +:+ mountDir.

Definition no_such_dir : error := External "no such file or directory".

(** Every outcome of the external calls of one reconciliation. *)
Ltac reconcile_cases sys :=
  run_host;
  repeat match goal with
  | |- context [util.IsMountPoint sys ?d ?w] =>
      let m := fresh "mounted" in let e := fresh "probeErr" in let w' := fresh "w" in
      destruct (util.IsMountPoint sys d w) as [[m [e|]] w'] eqn:?; try destruct m
  | |- context [if util.isForceUnmounter sys then _ else _] =>
      destruct (util.isForceUnmounter sys) eqn:?
  | |- context [util.CleanupMountWithForce sys ?d ?x ?y ?w] =>
      let e := fresh "mntErr" in let w' := fresh "w" in
      destruct (util.CleanupMountWithForce sys d x y w) as [[e|] w'] eqn:?
  | |- context [util.CleanupMountPoint sys ?d ?x ?w] =>
      let e := fresh "mntErr" in let w' := fresh "w" in
      destruct (util.CleanupMountPoint sys d x w) as [[e|] w'] eqn:?
  | |- context [util.GetMount sys ?d ?w] =>
      let mnt := fresh "mnt" in let e := fresh "getErr" in let w' := fresh "w" in
      destruct (util.GetMount sys d w) as [[mnt|e] w'] eqn:?
  | |- context [Contains (util.FilesystemType ?m) ?k] =>
      destruct (Contains (util.FilesystemType m) k) eqn:?
  | _ => progress cbn [fst snd negb app Wrapf]
  end.

(** The strings a regular expression denotes. *)
Inductive lang : regexp -> list ascii -> Prop :=
| lang_Epsilon : lang Epsilon []
| lang_Class p c : p c = true -> lang (Class p) [c]
| lang_Cat r1 r2 s1 s2 : lang r1 s1 -> lang r2 s2 -> lang (Cat r1 r2) (s1 ++ s2)
| lang_Alt_l r1 r2 s : lang r1 s -> lang (Alt r1 r2) s
| lang_Alt_r r1 r2 s : lang r2 s -> lang (Alt r1 r2) s
| lang_Star_nil r : lang (Star r) []
| lang_Star_app r s1 s2 : lang r s1 -> lang (Star r) s2 -> lang (Star r) (s1 ++ s2).

(** What one pass of the loop of [ExtractNames] appends for [name]. *)
Definition extract_name (prefix suffix name : string) : option string :=
  let f := TrimLeft name "/" in
  if HasPrefix f prefix && HasSuffix f suffix then
    let f := TrimSuffix (TrimPrefix f prefix) suffix in
    if util.ValidateName f then Some f else None
  else None.

(** The textual form of a UUID: five groups joined by dashes. *)
Definition uuid_text (g1 g2 g3 g4 g5 : string) : string :=
  g1 +:+ "-" +:+ g2 +:+ "-" +:+ g3 +:+ "-" +:+ g4 +:+ "-" +:+ g5.

(** A file system with one readable file, and a 32-byte digest for it. *)
Definition one_file (path : string) (data : list byte) (p : string) : ext Reader :=
  if String.eqb p path then Ret (bytes_NewReader data)
  else Raise ("open " +:+ p +:+ ": no such file or directory").

Definition first32 (data : list byte) : vec byte 32 := pad 32 (sha512.digest data).

(** * Properties *)

(** ** Strings *)

Lemma substring_0_length (n : nat) (s : string) :
  n <= String.length s -> String.length (substring 0 n s) = n.
Proof.
  revert s. induction n as [|n IH]; intros [|c s] Hn; simpl in *;
    try reflexivity; try lia.
  rewrite IH; lia.
Qed.

Lemma substring_0_prefix (n : nat) (s : string) :
  String.prefix (substring 0 n s) s = true.
Proof.
  revert s. induction n as [|n IH]; intros [|c s]; simpl; try reflexivity.
  destruct (ascii_dec c c); [apply IH | congruence].
Qed.

Lemma substring_0_chars (P : ascii -> Prop) (n : nat) (s : string) :
  Forall P (list_ascii_of_string s) ->
  Forall P (list_ascii_of_string (substring 0 n s)).
Proof.
  revert s. induction n as [|n IH]; intros [|c s] H; simpl; try constructor.
  - inversion H; assumption.
  - apply IH. inversion H; assumption.
Qed.

Lemma append_String (c : ascii) (p b : string) :
  String c p +:+ b = String c (p +:+ b).
Proof. reflexivity. Qed.

Lemma append_empty (b : string) : "" +:+ b = b.
Proof. reflexivity. Qed.

Lemma prefix_append (p s : string) :
  String.prefix p s = true <-> exists b, s = p +:+ b.
Proof.
  revert s. induction p as [|c p IH]; intros s.
  - split; [intros _; exists s; reflexivity | intros _; destruct s; reflexivity].
  - destruct s as [|d s]; simpl.
    + split; [discriminate | intros [b Hb]; discriminate].
    + destruct (ascii_dec c d) as [->|Hne].
      * rewrite IH. split; intros [b Hb]; exists b.
        -- rewrite append_String. congruence.
        -- rewrite append_String in Hb. congruence.
      * split; [discriminate | intros [b Hb]].
        rewrite append_String in Hb. congruence.
Qed.

Lemma Contains_spec (s substr : string) :
  Contains s substr = true <-> exists a b, s = a +:+ substr +:+ b.
Proof.
  split.
  - induction s as [|c s IH]; cbn [Contains]; rewrite orb_true_iff; intros [H|H].
    + apply prefix_append in H as [b Hb]. exists "", b. exact Hb.
    + discriminate.
    + apply prefix_append in H as [b Hb]. exists "", b. exact Hb.
    + destruct (IH H) as (a & b & ->). exists (String c a), b. reflexivity.
  - intros (a & b & ->). induction a as [|c a IH].
    + rewrite append_empty.
      assert (String.prefix substr (substr +:+ b) = true) as Hp
        by (apply prefix_append; eauto).
      destruct (substr +:+ b); cbn [Contains]; rewrite Hp; reflexivity.
    + rewrite append_String. cbn [Contains]. apply orb_true_iff. right. exact IH.
Qed.

(** ** Checksums *)

Lemma EncodeToString_length (src : list byte) :
  String.length (EncodeToString src) = 2 * length src.
Proof.
  induction src as [|v rest IH]; simpl; [reflexivity|]. rewrite IH. lia.
Qed.

Lemma hexchar_high_lower_hex (v : byte) :
  is_lower_hex (hexchar (N.shiftr (Byte.to_N v) 4)) = true.
Proof. destruct v; vm_compute; reflexivity. Qed.

Lemma hexchar_low_lower_hex (v : byte) :
  is_lower_hex (hexchar (N.land (Byte.to_N v) 15)) = true.
Proof. destruct v; vm_compute; reflexivity. Qed.

Lemma EncodeToString_lower_hex (src : list byte) :
  Forall (fun c => is_lower_hex c = true) (list_ascii_of_string (EncodeToString src)).
Proof.
  induction src as [|v rest IH]; simpl; [constructor|].
  constructor; [apply hexchar_high_lower_hex|].
  constructor; [apply hexchar_low_lower_hex | exact IH].
Qed.

(** The slice [[:PreservedChecksumLength]] in [GetChecksum] is in range. *)
Lemma GetChecksum_slice_in_range (imp : Imports) (data : list byte) :
  util.PreservedChecksumLength <=
  String.length (EncodeToString (vec_to_list (sha512_Sum512 imp data))).
Proof.
  rewrite EncodeToString_length, length_vec_to_list.
  unfold util.PreservedChecksumLength. lia.
Qed.

Example GetChecksum_empty :
  util.GetChecksum sample_imports []
    = "cf83e1357eefb8bdf1542850d66d8007d620e4050b5715dc83f4a921d36ce9ce".
Proof. vm_compute. reflexivity. Qed.

Example GetChecksum_abc :
  util.GetChecksum sample_imports (bytes_of "abc")
    = "ddaf35a193617abacc417349ae20413112e6fa4e89a97ea20a9eeee64b55d39a".
Proof. vm_compute. reflexivity. Qed.

(** C8: for every input, the empty one included, [GetChecksum] returns 64
    characters, each a lowercase hexadecimal digit, and they are the first
    64 of the 128 characters that encode the 64-byte SHA-512 digest. *)
Theorem GetChecksum_shape (imp : Imports) (data : list byte) :
  let digest := EncodeToString (vec_to_list (sha512_Sum512 imp data)) in
  String.length (util.GetChecksum imp data) = 64 /\
  Forall (fun c => is_lower_hex c = true)
         (list_ascii_of_string (util.GetChecksum imp data)) /\
  String.length digest = 128 /\
  util.GetChecksum imp data = substring 0 64 digest /\
  String.prefix (util.GetChecksum imp data) digest = true.
Proof.
  intros digest. unfold util.GetChecksum, util.slice_to.
  fold digest. pose proof (GetChecksum_slice_in_range imp data) as Hr.
  fold digest in Hr. repeat split.
  - apply substring_0_length. exact Hr.
  - apply substring_0_chars. apply EncodeToString_lower_hex.
  - subst digest. rewrite EncodeToString_length, length_vec_to_list. reflexivity.
  - apply substring_0_prefix.
Qed.

(** ** Compression pipeline *)

Lemma not_accepted_eqb (method : string) :
  method ∉ accepted ->
  String.eqb method "none" = false /\
  String.eqb method "gzip" = false /\
  String.eqb method "lz4" = false.
Proof.
  unfold accepted. rewrite !not_elem_of_cons. intros (Hn & Hg & Hl & _).
  repeat split; apply String.eqb_neq; assumption.
Qed.

Lemma accepted_cases (method : string) :
  method ∈ accepted -> method = "none" \/ method = "gzip" \/ method = "lz4".
Proof.
  unfold accepted. rewrite !elem_of_cons, elem_of_nil. tauto.
Qed.

Lemma CompressData_unsupported (imp : Imports) (method : string) (data : list byte)
    (t : list Call) :
  method ∉ accepted ->
  util.CompressData imp method data t = (Err (UnsupportedCompression method), t).
Proof.
  intros H. destruct (not_accepted_eqb method H) as (Hn & Hg & Hl).
  unfold util.CompressData, util.newCompressionWriter.
  rewrite Hn, Hg, Hl. reflexivity.
Qed.

Lemma DecompressAndVerify_unsupported (imp : Imports) (method : string) (src : Reader)
    (checksum : string) (t : list Call) :
  method ∉ accepted ->
  util.DecompressAndVerify imp method src checksum t
    = (Err (UnsupportedDecompression method), t).
Proof.
  intros H. destruct (not_accepted_eqb method H) as (Hn & Hg & Hl).
  unfold util.DecompressAndVerify, util.newDecompressionReader.
  rewrite Hn, Hg, Hl. reflexivity.
Qed.

(** C7: for a name outside the listed set, both entry points return the
    unsupported-method error and leave the trace as it was: no writer or
    reader is created, nothing is written, read or closed, and no digest
    is computed. *)
Theorem unknown_method_no_partial_work (imp : Imports) (method : string)
    (data : list byte) (src : Reader) (sum : string) (t : list Call) :
  method ∉ listed ->
  util.CompressData imp method data t = (Err (UnsupportedCompression method), t) /\
  util.DecompressAndVerify imp method src sum t
    = (Err (UnsupportedDecompression method), t).
Proof.
  intros H.
  assert (method ∉ accepted) as Ha.
  { revert H. unfold accepted, listed. rewrite !not_elem_of_cons. tauto. }
  split; [apply CompressData_unsupported | apply DecompressAndVerify_unsupported];
    exact Ha.
Qed.

Lemma unknown_method_no_partial_work_witness :
  ("bogus" ∉ listed) /\
  run (util.CompressData sample_imports "bogus" (bytes_of "payload"))
    = (Err (Errorf "unsupported compression method: bogus"), []) /\
  run (util.DecompressAndVerify sample_imports "bogus"
         (bytes_NewReader (bytes_of "payload")) "00")
    = (Err (Errorf "unsupported decompression method: bogus"), []).
Proof.
  assert ("bogus" ∉ listed) as H by decide_closed.
  split; [exact H|].
  exact (unknown_method_no_partial_work sample_imports "bogus" (bytes_of "payload")
           (bytes_NewReader (bytes_of "payload")) "00" [] H).
Defined.

Lemma CompressData_accepted (imp : Imports) (method : string) (data : list byte)
    (t : list Call) :
  method ∈ accepted ->
  fst (util.CompressData imp method data t) <> Err (UnsupportedCompression method).
Proof.
  intros H. destruct (accepted_cases method H) as [-> | [-> | ->]]; run_traced.
  - discriminate.
  - destruct (Write _ _ _ _) as [[w' b'] [msg|]]; discriminate.
  - destruct (Write _ _ _ _) as [[w' b'] [msg|]]; discriminate.
Qed.

Lemma DecompressAndVerify_accepted (imp : Imports) (method : string) (src : Reader)
    (sum : string) (t : list Call) :
  method ∈ accepted ->
  fst (util.DecompressAndVerify imp method src sum t)
    <> Err (UnsupportedDecompression method).
Proof.
  intros H. destruct (accepted_cases method H) as [-> | [-> | ->]]; run_traced.
  - unfold io_ReadAll. destruct (failure src); [discriminate|].
    destruct (negb _); discriminate.
  - destruct (gzip_NewReader _ _) as [r|msg]; [|discriminate].
    destruct (ReadAll _ r) as [block|msg]; [|discriminate].
    destruct (negb _); discriminate.
  - destruct (ReadAll _ _) as [block|msg]; [|discriminate].
    destruct (negb _); discriminate.
Qed.

Lemma Compressors_dom (imp : Imports) :
  dom (compression.Compressors imp) = ({[ "gzip"; "zstd"; "lz4" ]} : gset string).
Proof.
  unfold compression.Compressors, gzip.AlgoName, zstd.AlgoName, lz4.AlgoName.
  rewrite !dom_insert_L, dom_singleton_L. set_solver.
Qed.

(** C4, as the code has it: [CompressData] and [DecompressAndVerify] fail
    with the unsupported-method error exactly for the names other than
    "none", "gzip" and "lz4" ("zstd" among them), whatever the input;
    the registry [Compressors], which these two functions do not consult,
    holds exactly "gzip", "zstd" and "lz4". *)
Theorem pipeline_accepted_names (imp : Imports) (method : string)
    (data : list byte) (src : Reader) (sum : string) (t : list Call) :
  (fst (util.CompressData imp method data t) = Err (UnsupportedCompression method)
     <-> method ∉ accepted) /\
  (fst (util.DecompressAndVerify imp method src sum t)
     = Err (UnsupportedDecompression method)
     <-> method ∉ accepted) /\
  ("zstd" ∉ accepted) /\
  dom (compression.Compressors imp) = ({[ "gzip"; "zstd"; "lz4" ]} : gset string).
Proof.
  split; [|split; [|split]].
  - split.
    + intros Hf Ha. exact (CompressData_accepted imp method data t Ha Hf).
    + intros Hn. rewrite CompressData_unsupported by exact Hn. reflexivity.
  - split.
    + intros Hf Ha. exact (DecompressAndVerify_accepted imp method src sum t Ha Hf).
    + intros Hn. rewrite DecompressAndVerify_unsupported by exact Hn. reflexivity.
  - decide_closed.
  - apply Compressors_dom.
Qed.

(** C4 as stated fails at "zstd": both entry points reject the name. *)
Lemma zstd_is_rejected :
  ("zstd" ∈ listed) /\
  run (util.CompressData sample_imports "zstd" (bytes_of "payload"))
    = (Err (Errorf "unsupported compression method: zstd"), []) /\
  run (util.DecompressAndVerify sample_imports "zstd"
         (bytes_NewReader (bytes_of "payload"))
         (util.GetChecksum sample_imports (bytes_of "payload")))
    = (Err (Errorf "unsupported decompression method: zstd"), []).
Proof.
  split; [decide_closed|]. split; reflexivity.
Qed.

(** C1, as the code has it: for "none", "gzip" and "lz4", and codecs that
    decode what they encode, compressing any [data] and then decompressing
    against [GetChecksum data] succeeds with a stream over [data]. *)
Theorem round_trip_accepted (imp : Imports) (method : string) (data : list byte) :
  gzip_round_trips (compress_gzip imp) ->
  lz4_round_trips (pierrec_lz4 imp) ->
  method ∈ accepted ->
  round_trips imp method data.
Proof.
  intros Hgz Hlz H. unfold round_trips.
  destruct (accepted_cases method H) as [-> | [-> | ->]].
  - eexists _, _, _. split; [reflexivity|]. split; [|reflexivity].
    run_traced. unfold io_ReadAll; simpl. rewrite String.eqb_refl. reflexivity.
  - specialize (Hgz data).
    destruct (Write _ _ _ _) as [[w' b'] err] eqn:Hw.
    destruct Hgz as (-> & r & Hr & Hall).
    eexists _, _, _. split; [|split; [|reflexivity]].
    + run_traced. rewrite Hw. reflexivity.
    + run_traced. rewrite Hr, Hall, String.eqb_refl. reflexivity.
  - specialize (Hlz data).
    destruct (Write _ _ _ _) as [[w' b'] err] eqn:Hw.
    destruct Hlz as (-> & Hall).
    eexists _, _, _. split; [|split; [|reflexivity]].
    + run_traced. rewrite Hw. reflexivity.
    + run_traced. rewrite Hall, String.eqb_refl. reflexivity.
Qed.

Lemma sample_gzip_round_trips : gzip_round_trips (compress_gzip sample_imports).
Proof.
  intros data. simpl. split; [reflexivity|]. exists data. split; reflexivity.
Defined.

Lemma sample_lz4_round_trips : lz4_round_trips (pierrec_lz4 sample_imports).
Proof. intros data. simpl. split; reflexivity. Defined.

Lemma round_trip_accepted_witness :
  round_trips sample_imports "gzip" (bytes_of "payload").
Proof.
  apply (round_trip_accepted sample_imports "gzip" (bytes_of "payload")
           sample_gzip_round_trips sample_lz4_round_trips).
  decide_closed.
Defined.

(** The registry's own codecs do round-trip, "zstd" included: what is
    missing for "zstd" is only the dispatch in util.go. *)
Lemma Compressors_round_trip (imp : Imports) (name : string)
    (c : compression.Compressor) (data : list byte) :
  gzip_round_trips (compress_gzip imp) ->
  lz4_round_trips (pierrec_lz4 imp) ->
  zstd_round_trips (klauspost_zstd imp) ->
  compression.Compressors imp !! name = Some c ->
  exists stream t t',
    run (compression.CompressData c data) = (Ok stream, t) /\
    compression.DecompressData c stream t = (Ok data, t').
Proof.
  intros Hgz Hlz Hzs. unfold compression.Compressors.
  rewrite !lookup_insert_Some, lookup_singleton_Some.
  intros [[_ <-] | [_ [[_ <-] | [_ [_ <-]]]]]; cbn [compression.CompressData
    compression.DecompressData].
  - specialize (Hgz data).
    destruct (Write _ _ _ _) as [[w' b'] err] eqn:Hw.
    destruct Hgz as (-> & r & Hr & Hall).
    unfold gzip.CompressData, gzip.DecompressData, run,
      mbind, State_bind, mret, State_ret, emit.
    rewrite Hw. eexists _, _, _. split; [reflexivity|].
    rewrite Hr, Hall. reflexivity.
  - destruct (Hzs data) as (w0 & Hn & Hz).
    destruct (Write _ _ _ _) as [[w' b'] err] eqn:Hw.
    destruct Hz as (-> & r & Hr & Hall).
    unfold zstd.CompressData, zstd.DecompressData, run,
      mbind, State_bind, mret, State_ret, emit.
    rewrite Hn, Hw. eexists _, _, _. split; [reflexivity|].
    rewrite Hr, Hall. reflexivity.
  - specialize (Hlz data).
    destruct (Write _ _ _ _) as [[w' b'] err] eqn:Hw.
    destruct Hlz as (-> & Hall).
    unfold lz4.CompressData, lz4.DecompressData, run,
      mbind, State_bind, mret, State_ret, emit.
    rewrite Hw. eexists _, _, _. split; [reflexivity|].
    rewrite Hall. reflexivity.
Qed.

(** C1 as stated fails at the registered name "zstd": [CompressData]
    rejects it, so there is no stream to decompress. *)
Lemma round_trip_zstd_fails :
  "zstd" ∈ dom (compression.Compressors sample_imports) /\
  ~ round_trips sample_imports "zstd" (bytes_of "payload").
Proof.
  split.
  - rewrite Compressors_dom. set_solver.
  - intros (stream & t & t' & Hc & _). discriminate Hc.
Qed.

(** ** Command executor *)

Lemma append_assoc (a b c : string) : (a +:+ b) +:+ c = a +:+ b +:+ c.
Proof.
  induction a as [|x a IH]; [reflexivity|].
  rewrite !append_String, IH. reflexivity.
Qed.

Lemma Contains_middle (a x b : string) : Contains (a +:+ x +:+ b) x = true.
Proof. apply Contains_spec. exists a, b. reflexivity. Qed.

Lemma prefix_head (p rest : string) : String.prefix p (p +:+ rest) = true.
Proof. apply prefix_append. exists rest. reflexivity. Qed.

Lemma carries_intro (head binary : string) (args : list string) (output : list byte)
    (cause : option error) :
  carries (Errorf (head +:+ binary +:+ " " +:+ fmt_strings args
                   +:+ ", output " +:+ string_of_list_byte output
                   +:+ ", error " +:+ fmt_error cause))
          binary args output cause.
Proof.
  unfold carries. cbn [Error]. repeat split; apply Contains_spec.
  - exists head. eexists. rewrite !append_assoc. reflexivity.
  - exists (head +:+ binary +:+ " " +:+ fmt_strings args +:+ ", output ").
    eexists. rewrite !append_assoc. reflexivity.
  - exists (head +:+ binary +:+ " " +:+ fmt_strings args +:+ ", output "
            +:+ string_of_list_byte output +:+ ", error "), "".
    rewrite !append_assoc.
    repeat (f_equal; []).
    clear. induction (fmt_error cause) as [|c s IH]; [reflexivity|].
    rewrite append_String, <- IH. reflexivity.
Qed.

(** C5: when [select] takes [ctx.Done()], [execute] returns a timeout error
    that carries the command line and the output and error read at that
    moment; when it takes [done] and the command failed, it returns an
    execution error that carries the command line, the output and the
    cause; no error is of both kinds. *)
Theorem execute_error_kinds (spawn : Z -> string -> list string -> util.Observation)
    (ctx : Z) (binary : string) (args : list string) :
  let obs := spawn ctx binary args in
  match util.selected obs, util.err obs with
  | util.caseCtxDone, _ =>
      exists e, util.execute spawn ctx binary args = ("", Some e) /\
                is_timeout_error e = true /\ is_execution_error e = false /\
                carries e binary args (util.output obs) (util.err obs)
  | util.caseDone, Some cause =>
      exists e, util.execute spawn ctx binary args = ("", Some e) /\
                is_execution_error e = true /\ is_timeout_error e = false /\
                carries e binary args (util.output obs) (Some cause)
  | util.caseDone, None =>
      util.execute spawn ctx binary args
        = (string_of_list_byte (util.output obs), None)
  end /\
  (forall e, is_timeout_error e = true -> is_execution_error e = true -> False).
Proof.
  intros obs. split.
  - unfold util.execute. fold obs.
    destruct (util.selected obs); [destruct (util.err obs) as [cause|] eqn:He|].
    + eexists. split; [reflexivity|]. split; [apply prefix_head|].
      split; [reflexivity|]. apply (carries_intro "failed to execute: ").
    + reflexivity.
    + eexists. split; [reflexivity|]. split; [apply prefix_head|].
      split; [reflexivity|]. apply (carries_intro "timeout executing: ").
  - intros e Ht Hx. unfold is_timeout_error, is_execution_error in *.
    destruct (Error e) as [|c s]; cbn [String.prefix] in *; [discriminate|].
    destruct (ascii_dec "t" c) as [<-|]; [|discriminate].
    destruct (ascii_dec "f" "t"); discriminate.
Qed.

Example execute_timeout_message :
  util.execute spawn_slow util.cmdTimeout "umount" ["-f"; "/mnt"]
    = ("", Some (Errorf "timeout executing: umount [-f /mnt], output , error <nil>")).
Proof. reflexivity. Qed.

Example execute_failure_message :
  util.execute spawn_failing util.cmdTimeout "umount" ["/mnt"]
    = ("", Some (Errorf ("failed to execute: umount [/mnt], " +:+
                         "output permission denied, error exit status 32"))).
Proof. reflexivity. Qed.

Lemma execute_error_cases
    (spawn : Z -> string -> list string -> util.Observation)
    (ctx : Z) (binary : string) (args : list string) :
  snd (util.execute spawn ctx binary args) = None \/
  fst (util.execute spawn ctx binary args) = "".
Proof.
  unfold util.execute.
  destruct (util.selected _); [destruct (util.err _)|]; simpl; auto.
Qed.

(** C9: whenever [execute] returns an error, of either kind, the string it
    returns is empty. *)
Theorem execute_error_empty_output
    (spawn : Z -> string -> list string -> util.Observation)
    (ctx : Z) (binary : string) (args : list string) :
  snd (util.execute spawn ctx binary args) <> None ->
  fst (util.execute spawn ctx binary args) = "".
Proof.
  intros H. destruct (execute_error_cases spawn ctx binary args) as [E|E];
    [contradiction | exact E].
Qed.

Lemma execute_error_empty_output_witness :
  snd (util.execute spawn_failing util.cmdTimeout "umount" ["/mnt"]) <> None /\
  fst (util.execute spawn_failing util.cmdTimeout "umount" ["/mnt"]) = "".
Proof.
  assert (snd (util.execute spawn_failing util.cmdTimeout "umount" ["/mnt"]) <> None)
    as H by (vm_compute; discriminate).
  split; [exact H|].
  exact (execute_error_empty_output spawn_failing util.cmdTimeout "umount" ["/mnt"] H).
Defined.

(** The exported wrappers only choose the deadline. *)
Lemma Execute_error_empty_output
    (spawn : Z -> string -> list string -> util.Observation)
    (binary : string) (args : list string) (timeout : Z) :
  (snd (util.Execute spawn binary args) <> None ->
   fst (util.Execute spawn binary args) = "") /\
  (snd (util.ExecuteWithCustomTimeout spawn binary args timeout) <> None ->
   fst (util.ExecuteWithCustomTimeout spawn binary args timeout) = "").
Proof.
  unfold util.Execute, util.ExecuteWithCustomTimeout.
  split; intros H.
  - destruct (execute_error_cases spawn util.cmdTimeout binary args); tauto.
  - destruct (execute_error_cases spawn timeout binary args); tauto.
Qed.

(** C10: whenever running "mount" fails, by timeout or by execution
    failure, [IsMounted] returns false, as it does for a mount table that
    does not list the path. *)
Theorem IsMounted_false_on_failure
    (spawn : Z -> string -> list string -> util.Observation) (mountPoint : string) :
  snd (util.Execute spawn "mount" []) <> None ->
  util.IsMounted spawn mountPoint = false.
Proof.
  unfold util.IsMounted.
  destruct (util.Execute spawn "mount" []) as [out [e|]]; simpl; congruence.
Qed.

Lemma IsMounted_false_on_failure_witness :
  util.IsMounted spawn_slow "/var/lib/backups" = false /\
  util.IsMounted spawn_failing "/var/lib/backups" = false.
Proof.
  split.
  - apply (IsMounted_false_on_failure spawn_slow "/var/lib/backups").
    vm_compute. discriminate.
  - apply (IsMounted_false_on_failure spawn_failing "/var/lib/backups").
    vm_compute. discriminate.
Defined.

Lemma IsMounted_false_when_not_listed
    (spawn : Z -> string -> list string -> util.Observation) (mountPoint : string) :
  Forall (fun line => Contains line (" " +:+ mountPoint +:+ " ") = false)
         (Split (fst (util.Execute spawn "mount" [])) util.newline) ->
  util.IsMounted spawn mountPoint = false.
Proof.
  unfold util.IsMounted.
  destruct (util.Execute spawn "mount" []) as [out [e|]]; [reflexivity|].
  cbn [fst]. intros H. induction H as [|line lines Hl _ IH]; [reflexivity|].
  cbn [existsb]. rewrite Hl, IH. reflexivity.
Qed.

Example IsMounted_listed :
  util.IsMounted spawn_mount_table "/var/lib/backups" = true /\
  util.IsMounted spawn_mount_table "/var/lib" = false.
Proof. split; reflexivity. Qed.

(** ** Mount reconciliation *)

Lemma cleanup_calls_app (t u : list Call) :
  cleanup_calls (t ++ u) = cleanup_calls t + cleanup_calls u.
Proof. unfold cleanup_calls. rewrite List.filter_app, length_app. reflexivity. Qed.

Lemma cleanupMount_run (sys : util.MountSystem) (mountDir : string)
    (w : util.world sys) (t : list Call) :
  exists u,
    util.cleanupMount sys mountDir (w, t)
      = (fst (cleanup_on sys mountDir w), (snd (cleanup_on sys mountDir w), t ++ u)) /\
    cleanup_calls u = 1.
Proof.
  run_host. destruct (util.isForceUnmounter sys).
  - destruct (util.CleanupMountWithForce _ _ _ _ _) as [e w'].
    eexists [_; _]. rewrite <- app_assoc. split; reflexivity.
  - destruct (util.CleanupMountPoint _ _ _ _) as [e w'].
    eexists [_; _]. rewrite <- app_assoc. split; reflexivity.
Qed.

(** The probe succeeds and reports "not mounted". *)
Lemma reconcile_not_mounted (sys : util.MountSystem) (Kind mountDir : string)
    (w w1 : util.world sys) (t : list Call) :
  util.IsMountPoint sys mountDir w = ((false, None), w1) ->
  util.CheckAndCleanupMountPoint sys Kind mountDir (w, t)
    = ((false, None), (w1, t ++ [CallIsMountPoint mountDir])).
Proof. intros Hp. run_check. rewrite Hp. reflexivity. Qed.

(** The probe succeeds, reports "mounted", and the live type matches. *)
Lemma reconcile_healthy (sys : util.MountSystem) (Kind mountDir : string)
    (w w1 w2 : util.world sys) (mnt : util.Mount) (t : list Call) :
  util.IsMountPoint sys mountDir w = ((true, None), w1) ->
  util.GetMount sys mountDir w1 = (Ok mnt, w2) ->
  Contains (util.FilesystemType mnt) Kind = true ->
  util.CheckAndCleanupMountPoint sys Kind mountDir (w, t)
    = ((true, None),
       (w2, (t ++ [CallIsMountPoint mountDir]) ++ [CallGetMount mountDir])).
Proof. intros Hp Hg Hc. run_check. rewrite Hp; simpl. rewrite Hg, Hc. reflexivity. Qed.

(** The probe succeeds, reports "mounted", and the live type does not
    match: one cleanup, whose outcome decides the boolean. *)
Lemma reconcile_stale (sys : util.MountSystem) (Kind mountDir : string)
    (w w1 w2 : util.world sys) (mnt : util.Mount) (t : list Call) :
  util.IsMountPoint sys mountDir w = ((true, None), w1) ->
  util.GetMount sys mountDir w1 = (Ok mnt, w2) ->
  Contains (util.FilesystemType mnt) Kind = false ->
  exists u,
    util.CheckAndCleanupMountPoint sys Kind mountDir (w, t)
      = ((match fst (cleanup_on sys mountDir w2) with
          | Some _ => true
          | None => false
          end, None),
         (snd (cleanup_on sys mountDir w2), t ++ u)) /\
    cleanup_calls u = 1.
Proof.
  intros Hp Hg Hc. run_check. rewrite Hp; simpl. rewrite Hg, Hc.
  destruct (cleanupMount_run sys mountDir w2
              ((t ++ [CallIsMountPoint mountDir]) ++ [CallGetMount mountDir]))
    as (u & -> & Hu).
  destruct (fst (cleanup_on sys mountDir w2)) as [mntErr|].
  - eexists ([_; _] ++ u ++ [_]). split.
    + simpl. rewrite <- !app_assoc. reflexivity.
    + rewrite !cleanup_calls_app, Hu. reflexivity.
  - eexists ([_; _] ++ u). split.
    + simpl. rewrite <- !app_assoc. reflexivity.
    + rewrite cleanup_calls_app, Hu. reflexivity.
Qed.

(** C3, as the code has it: when the probe returns an error, a cleanup is
    attempted.  If the cleanup fails, the call returns true and the probe
    error wrapped with context, the cleanup failure being logged only, so
    the returned cause is the probe's.  If the cleanup succeeds, the probe
    error is dropped and the call goes on with the boolean the probe
    returned: for false it returns (false, nil). *)
Theorem probe_error_reconciliation (sys : util.MountSystem) (Kind mountDir : string)
    (w w1 : util.world sys) (mounted : bool) (probeErr : error) :
  util.IsMountPoint sys mountDir w = ((mounted, Some probeErr), w1) ->
  let out := util.CheckAndCleanupMountPoint sys Kind mountDir (w, []) in
  1 <= cleanup_calls (snd (snd out)) /\
  match fst (cleanup_on sys mountDir w1) with
  | Some mntErr =>
      fst out = (true, Some (withMessage probeErr (corrupted_msg mountDir))) /\
      (forall e, snd (fst out) = Some e -> Cause e = Cause probeErr) /\
      cleanup_calls (snd (snd out)) = 1 /\
      LogErrorf mntErr (corrupted_msg mountDir) ∈ snd (snd out)
  | None =>
      mounted = false -> fst out = (false, None)
  end.
Proof.
  intros Hp out. subst out. run_check. rewrite Hp. cbn [app].
  destruct (cleanupMount_run sys mountDir w1 [CallIsMountPoint mountDir])
    as (u & -> & Hu).
  cbn [fst snd].
  destruct (fst (cleanup_on sys mountDir w1)) as [mntErr|].
  - cbn. repeat split; try count_cleanups.
    + intros e [= <-]. reflexivity.
    + apply list_elem_of_further, elem_of_app. right. in_trace.
  - split; [|intros ->; reflexivity].
    destruct mounted; cbn; [|count_cleanups].
    destruct (util.GetMount _ _ _) as [[mnt|e] w3]; cbn; [|count_cleanups].
    destruct (Contains _ _); cbn; [count_cleanups|].
    match goal with
    | |- context [util.cleanupMount sys mountDir (?w', ?t')] =>
        destruct (cleanupMount_run sys mountDir w' t') as (u' & -> & Hu')
    end.
    destruct (fst (cleanup_on sys mountDir w3)); cbn; count_cleanups.
Qed.

Lemma probe_error_reconciliation_witness :
  fst (util.CheckAndCleanupMountPoint
         (scripted (true, Some stale_handle) true (Some target_busy) (Ok nfs4))
         "nfs" "/var/lib/backups" (tt, []))
    = (true, Some (withMessage stale_handle
                     "Failed to unmount corrupted mountpoint /var/lib/backups")).
Proof.
  exact (proj1 (proj2
    (probe_error_reconciliation
       (scripted (true, Some stale_handle) true (Some target_busy) (Ok nfs4))
       "nfs" "/var/lib/backups" tt tt true stale_handle eq_refl))).
Defined.

(** C3 as stated fails when the cleanup succeeds: the probe error is not
    returned. *)
Lemma probe_error_dropped_after_cleanup :
  util.IsMountPoint (scripted (false, Some stale_handle) true None (Ok nfs4))
    "/var/lib/backups" tt = ((false, Some stale_handle), tt) /\
  util.CheckAndCleanupMountPoint
    (scripted (false, Some stale_handle) true None (Ok nfs4))
    "nfs" "/var/lib/backups" (tt, [])
    = ((false, None),
       (tt, [CallIsMountPoint "/var/lib/backups";
             LogInfof "Trying to force clean up mountpoint /var/lib/backups";
             CallCleanupMountWithForce "/var/lib/backups" 30000000000])).
Proof. split; reflexivity. Qed.

(** C2, as the code has it: when the probe reports the directory mounted,
    the live filesystem type does not contain the expected kind and the
    cleanup fails, the call returns the boolean true, after one cleanup
    attempt whose failure is logged. *)
Theorem stale_mount_cleanup_failure (sys : util.MountSystem) (Kind mountDir : string)
    (w w1 w2 : util.world sys) (mnt : util.Mount) (mntErr : error) :
  util.IsMountPoint sys mountDir w = ((true, None), w1) ->
  util.GetMount sys mountDir w1 = (Ok mnt, w2) ->
  Contains (util.FilesystemType mnt) Kind = false ->
  fst (cleanup_on sys mountDir w2) = Some mntErr ->
  let out := util.CheckAndCleanupMountPoint sys Kind mountDir (w, []) in
  fst (fst out) = true /\
  cleanup_calls (snd (snd out)) = 1 /\
  (exists msg, LogErrorf mntErr msg ∈ snd (snd out)).
Proof.
  intros Hp Hg Hc Hf out. subst out. run_host. rewrite Hp. simpl.
  rewrite Hg, Hc.
  destruct (util.isForceUnmounter sys).
  - destruct (util.CleanupMountWithForce _ _ _ _ _) as [r w3]. cbn in *. subst r.
    split; [reflexivity|].
    split; [unfold cleanup_calls; simpl; lia | eexists; in_trace].
  - destruct (util.CleanupMountPoint _ _ _ _) as [r w3]. cbn in *. subst r.
    split; [reflexivity|].
    split; [unfold cleanup_calls; simpl; lia | eexists; in_trace].
Qed.

Lemma stale_mount_cleanup_failure_witness :
  fst (fst (util.CheckAndCleanupMountPoint
              (scripted (true, None) true (Some target_busy) (Ok nfs4))
              "cifs" "/var/lib/backups" (tt, []))) = true.
Proof.
  exact (proj1
    (stale_mount_cleanup_failure
       (scripted (true, None) true (Some target_busy) (Ok nfs4))
       "cifs" "/var/lib/backups" tt tt tt nfs4 target_busy
       eq_refl eq_refl eq_refl eq_refl)).
Defined.

(** C2 as stated fails: with a stale mount and a failing cleanup the call
    returns true, not false (and the error built from the nil [err] of
    [fs.GetMount] is nil). *)
Lemma stale_mount_cleanup_failure_returns_true :
  Contains (util.FilesystemType nfs4) "cifs" = false /\
  fst (cleanup_on (scripted (true, None) true (Some target_busy) (Ok nfs4))
         "/var/lib/backups" tt) = Some target_busy /\
  fst (util.CheckAndCleanupMountPoint
         (scripted (true, None) true (Some target_busy) (Ok nfs4))
         "cifs" "/var/lib/backups" (tt, []))
    = (true, None).
Proof. repeat split; reflexivity. Qed.

(** C6: on a probe that succeeds, (a) "not mounted" gives (false, nil) and
    no cleanup; (b) "mounted" with the expected kind a substring of the
    live filesystem type gives (true, nil) and no cleanup; (c) "mounted"
    with a live type that does not contain the expected kind gives exactly
    one cleanup. *)
Theorem reconcile_postconditions (sys : util.MountSystem) (Kind mountDir : string)
    (w : util.world sys) :
  let out := util.CheckAndCleanupMountPoint sys Kind mountDir (w, []) in
  (forall w1,
     util.IsMountPoint sys mountDir w = ((false, None), w1) ->
     fst out = (false, None) /\ cleanup_calls (snd (snd out)) = 0) /\
  (forall w1 w2 mnt,
     util.IsMountPoint sys mountDir w = ((true, None), w1) ->
     util.GetMount sys mountDir w1 = (Ok mnt, w2) ->
     Contains (util.FilesystemType mnt) Kind = true ->
     fst out = (true, None) /\ cleanup_calls (snd (snd out)) = 0) /\
  (forall w1 w2 mnt,
     util.IsMountPoint sys mountDir w = ((true, None), w1) ->
     util.GetMount sys mountDir w1 = (Ok mnt, w2) ->
     Contains (util.FilesystemType mnt) Kind = false ->
     cleanup_calls (snd (snd out)) = 1).
Proof.
  intros out. subst out. split; [|split].
  - intros w1 Hp. rewrite (reconcile_not_mounted sys Kind mountDir w w1 [] Hp).
    split; reflexivity.
  - intros w1 w2 mnt Hp Hg Hc.
    rewrite (reconcile_healthy sys Kind mountDir w w1 w2 mnt [] Hp Hg Hc).
    split; reflexivity.
  - intros w1 w2 mnt Hp Hg Hc.
    destruct (reconcile_stale sys Kind mountDir w w1 w2 mnt [] Hp Hg Hc)
      as (u & -> & Hu).
    exact Hu.
Qed.

Lemma reconcile_postconditions_witness :
  (let out := util.CheckAndCleanupMountPoint
                (scripted (false, None) true None (Ok nfs4))
                "nfs" "/var/lib/backups" (tt, []) in
   fst out = (false, None) /\ cleanup_calls (snd (snd out)) = 0) /\
  (let out := util.CheckAndCleanupMountPoint
                (scripted (true, None) true None (Ok nfs4))
                "nfs" "/var/lib/backups" (tt, []) in
   fst out = (true, None) /\ cleanup_calls (snd (snd out)) = 0) /\
  (let out := util.CheckAndCleanupMountPoint
                (scripted (true, None) false None (Ok nfs4))
                "cifs" "/var/lib/backups" (tt, []) in
   cleanup_calls (snd (snd out)) = 1).
Proof.
  split; [|split].
  - exact (proj1 (reconcile_postconditions
                    (scripted (false, None) true None (Ok nfs4))
                    "nfs" "/var/lib/backups" tt) tt eq_refl).
  - exact (proj1 (proj2 (reconcile_postconditions
                    (scripted (true, None) true None (Ok nfs4))
                    "nfs" "/var/lib/backups" tt)) tt tt nfs4 eq_refl eq_refl eq_refl).
  - exact (proj2 (proj2 (reconcile_postconditions
                    (scripted (true, None) false None (Ok nfs4))
                    "cifs" "/var/lib/backups" tt)) tt tt nfs4 eq_refl eq_refl eq_refl).
Defined.

(** * Further properties *)

(** ** Compression pipeline: integrity, error kinds, resources *)

(** X1: a stream handed back by [DecompressAndVerify] holds bytes whose
    checksum was computed and equals the expected one, and it cannot fail. *)
Theorem DecompressAndVerify_verified (imp : Imports) (method : string) (src : Reader)
    (checksum : string) (t t' : list Call) (r : Reader) :
  util.DecompressAndVerify imp method src checksum t = (Ok r, t') ->
  util.GetChecksum imp (content r) = checksum /\
  failure r = None /\
  CallSum512 (content r) ∈ t'.
Proof.
  run_traced.
  destruct (String.eqb method "none");
    [|destruct (String.eqb method "gzip"); [|destruct (String.eqb method "lz4")]].
  - destruct (io_ReadAll src) as [block|msg]; [|discriminate].
    destruct (String.eqb _ checksum) eqn:E; [|discriminate].
    intros [= <- <-]. apply String.eqb_eq in E.
    repeat split; [exact E | apply elem_of_app; right; in_trace].
  - destruct (gzip_NewReader _ _) as [zr|msg]; [|discriminate].
    destruct (ReadAll _ zr) as [block|msg]; [|discriminate].
    destruct (String.eqb _ checksum) eqn:E; [|discriminate].
    intros [= <- <-]. apply String.eqb_eq in E.
    repeat split; [exact E|].
    apply elem_of_app; left. apply elem_of_app; right; in_trace.
  - destruct (ReadAll _ _) as [block|msg]; [|discriminate].
    destruct (String.eqb _ checksum) eqn:E; [|discriminate].
    intros [= <- <-]. apply String.eqb_eq in E.
    repeat split; [exact E | apply elem_of_app; right; in_trace].
  - discriminate.
Qed.

Lemma DecompressAndVerify_verified_witness :
  util.GetChecksum sample_imports (bytes_of "payload")
    = util.GetChecksum sample_imports (bytes_of "payload") /\
  CallSum512 (bytes_of "payload")
    ∈ [CallNewReader "lz4"; CallReadAll "lz4"; CallSum512 (bytes_of "payload")].
Proof.
  assert (util.DecompressAndVerify sample_imports "lz4"
            (bytes_NewReader (x04 :: bytes_of "payload"))
            (util.GetChecksum sample_imports (bytes_of "payload")) []
          = (Ok (bytes_NewReader (bytes_of "payload")),
             [CallNewReader "lz4"; CallReadAll "lz4"; CallSum512 (bytes_of "payload")]))
    as H by (vm_compute; reflexivity).
  destruct (DecompressAndVerify_verified _ _ _ _ _ _ _ H) as (Hsum & _ & Hin).
  split; [exact Hsum | exact Hin].
Defined.

(** X2: an error of [DecompressAndVerify] is of exactly one of three
    kinds: the unsupported-method error, only for a name that is not
    accepted and before anything is done; an error of the codec or of the
    source; or the checksum mismatch, only after a block was decoded in
    full and its checksum, which differs from the expected one, computed. *)
Theorem DecompressAndVerify_error_kinds (imp : Imports) (method : string) (src : Reader)
    (checksum : string) (t t' : list Call) (e : error) :
  util.DecompressAndVerify imp method src checksum t = (Err e, t') ->
  (e = UnsupportedDecompression method /\ (method ∉ accepted) /\ t' = t) \/
  (exists msg, e = External msg) \/
  (e = ChecksumMismatch /\ (method ∈ accepted) /\
   exists block, CallSum512 block ∈ t' /\ util.GetChecksum imp block <> checksum).
Proof.
  destruct (decide (method ∈ accepted)) as [Ha|Hn].
  - intros H. right.
    destruct (accepted_cases method Ha) as [-> | [-> | ->]]; revert H; run_traced.
    + destruct (io_ReadAll src) as [block|msg]; [|intros [= <- _]; eauto].
      destruct (String.eqb _ checksum) eqn:E; [discriminate|].
      intros [= <- <-]. right. split; [reflexivity|]. split; [exact Ha|].
      exists block. apply String.eqb_neq in E.
      split; [apply elem_of_app; right; in_trace | exact E].
    + destruct (gzip_NewReader _ _) as [zr|msg]; [|intros [= <- _]; eauto].
      destruct (ReadAll _ zr) as [block|msg]; [|intros [= <- _]; eauto].
      destruct (String.eqb _ checksum) eqn:E; [discriminate|].
      intros [= <- <-]. right. split; [reflexivity|]. split; [exact Ha|].
      exists block. apply String.eqb_neq in E. split; [|exact E].
      apply elem_of_app; left. apply elem_of_app; right; in_trace.
    + destruct (ReadAll _ _) as [block|msg]; [|intros [= <- _]; eauto].
      destruct (String.eqb _ checksum) eqn:E; [discriminate|].
      intros [= <- <-]. right. split; [reflexivity|]. split; [exact Ha|].
      exists block. apply String.eqb_neq in E.
      split; [apply elem_of_app; right; in_trace | exact E].
  - rewrite DecompressAndVerify_unsupported by exact Hn.
    intros [= <- <-]. left. auto.
Qed.

Lemma DecompressAndVerify_error_kinds_witness :
  exists block,
    CallSum512 block ∈ [CallReadAll "io"; CallSum512 (bytes_of "payload")] /\
    util.GetChecksum sample_imports block <> "00".
Proof.
  assert (util.DecompressAndVerify sample_imports "none"
            (bytes_NewReader (bytes_of "payload")) "00" []
          = (Err ChecksumMismatch,
             [CallReadAll "io"; CallSum512 (bytes_of "payload")]))
    as H by (vm_compute; reflexivity).
  destruct (DecompressAndVerify_error_kinds _ _ _ _ _ _ _ H)
    as [(E & _) | [(msg & E) | (_ & _ & Hb)]]; [discriminate E | discriminate E | exact Hb].
Defined.

(** X3: for "gzip" and "lz4", [CompressData] creates one writer, hands it
    the whole input in one [Write] and closes it, in this order, whether
    the [Write] fails or not; its only error is the writer's. *)
Theorem CompressData_writer_closed (imp : Imports) (method : string) (data : list byte)
    (t : list Call) :
  method = "gzip" \/ method = "lz4" ->
  snd (util.CompressData imp method data t)
    = t ++ [CallNewWriter method; CallWrite method data; CallClose method] /\
  ((exists stream, fst (util.CompressData imp method data t) = Ok stream) \/
   (exists msg, fst (util.CompressData imp method data t) = Err (External msg))).
Proof.
  intros [-> | ->]; run_traced.
  - destruct (Write _ _ _ _) as [[w' b'] [msg|]]; cbn [fst snd];
      rewrite <- !app_assoc; (split; [reflexivity|]); eauto.
  - destruct (Write _ _ _ _) as [[w' b'] [msg|]]; cbn [fst snd];
      rewrite <- !app_assoc; (split; [reflexivity|]); eauto.
Qed.

Lemma CompressData_writer_closed_witness :
  snd (util.CompressData sample_imports "lz4" (bytes_of "payload") [])
    = [CallNewWriter "lz4"; CallWrite "lz4" (bytes_of "payload"); CallClose "lz4"].
Proof.
  exact (proj1 (CompressData_writer_closed sample_imports "lz4" (bytes_of "payload") []
                  (or_intror eq_refl))).
Defined.

(** X4: once [gzip.NewReader] has succeeded, [DecompressAndVerify] closes
    the reader last on every path (read error, checksum mismatch,
    success); when it fails, nothing is read and nothing is closed. *)
Theorem DecompressAndVerify_gzip_reader_closed (imp : Imports) (src : Reader)
    (checksum : string) (t : list Call) :
  match gzip_NewReader (compress_gzip imp) src with
  | Ret _ =>
      exists u,
        snd (util.DecompressAndVerify imp "gzip" src checksum t)
          = t ++ [CallNewReader "gzip"; CallReadAll "gzip"] ++ u ++ [CallClose "gzip"] /\
        CallClose "gzip" ∉ u
  | Raise msg =>
      util.DecompressAndVerify imp "gzip" src checksum t
        = (Err (External msg), t ++ [CallNewReader "gzip"])
  end.
Proof.
  run_traced. destruct (gzip_NewReader _ _) as [zr|msg]; [|reflexivity].
  destruct (ReadAll _ zr) as [block|msg].
  - exists [CallSum512 block]. split.
    + destruct (negb _); cbn [snd]; rewrite <- !app_assoc; reflexivity.
    + rewrite list_elem_of_singleton. discriminate.
  - exists []. split; [cbn [snd]; rewrite <- !app_assoc; reflexivity|].
    apply not_elem_of_nil.
Qed.

Lemma sample_zstd_round_trips : zstd_round_trips (klauspost_zstd sample_imports).
Proof.
  intros data. exists false. split; [reflexivity|]. simpl.
  split; [reflexivity|]. exists data. split; reflexivity.
Defined.

(** X5: for the names both know, "gzip" and "lz4", [util.CompressData]
    does what the registered codec's [CompressData] does: the same result
    after the same calls. *)
Theorem CompressData_agrees_with_registry (imp : Imports) (method : string)
    (c : compression.Compressor) (data : list byte) (t : list Call) :
  compression.Compressors imp !! method = Some c ->
  method <> "zstd" ->
  util.CompressData imp method data t = compression.CompressData c data t.
Proof.
  unfold compression.Compressors, gzip.AlgoName, zstd.AlgoName, lz4.AlgoName.
  rewrite !lookup_insert_Some, lookup_singleton_Some.
  intros [[<- <-] | [_ [[<- _] | [_ [<- <-]]]]] Hz;
    [| contradiction Hz; reflexivity |];
    cbn [compression.CompressData]; run_traced.
  - unfold gzip.CompressData, mbind, State_bind, mret, State_ret, emit.
    destruct (Write _ _ _ _) as [[w' b'] [msg|]]; reflexivity.
  - unfold lz4.CompressData, mbind, State_bind, mret, State_ret, emit.
    destruct (Write _ _ _ _) as [[w' b'] [msg|]]; reflexivity.
Qed.

Lemma CompressData_agrees_with_registry_witness :
  exists c, compression.Compressors sample_imports !! "lz4" = Some c /\
            util.CompressData sample_imports "lz4" (bytes_of "payload") []
              = compression.CompressData c (bytes_of "payload") [].
Proof.
  eexists. split; [reflexivity|].
  apply (CompressData_agrees_with_registry sample_imports "lz4");
    [reflexivity | discriminate].
Defined.

(** X6: every registered codec, "zstd" included, decodes what it encodes
    when the imported package does: [DecompressData] of the stream that
    [CompressData] returns gives the input back. *)
Theorem registered_codecs_round_trip (imp : Imports) (name : string) (data : list byte) :
  gzip_round_trips (compress_gzip imp) ->
  lz4_round_trips (pierrec_lz4 imp) ->
  zstd_round_trips (klauspost_zstd imp) ->
  name ∈ dom (compression.Compressors imp) ->
  exists c stream t t',
    compression.Compressors imp !! name = Some c /\
    run (compression.CompressData c data) = (Ok stream, t) /\
    compression.DecompressData c stream t = (Ok data, t').
Proof.
  intros Hgz Hlz Hzs Hin. apply elem_of_dom in Hin as [c Hc].
  destruct (Compressors_round_trip imp name c data Hgz Hlz Hzs Hc)
    as (stream & t & t' & H1 & H2).
  exists c, stream, t, t'. auto.
Qed.

Lemma registered_codecs_round_trip_witness :
  exists c stream t t',
    compression.Compressors sample_imports !! "zstd" = Some c /\
    run (compression.CompressData c (bytes_of "payload")) = (Ok stream, t) /\
    compression.DecompressData c stream t = (Ok (bytes_of "payload"), t').
Proof.
  apply (registered_codecs_round_trip sample_imports "zstd" (bytes_of "payload")
           sample_gzip_round_trips sample_lz4_round_trips sample_zstd_round_trips).
  rewrite Compressors_dom. set_solver.
Defined.

(** ** Mount reconciliation: what a whole run guarantees *)



(** X8: when the probe reports "mounted" and [fs.GetMount] fails, the
    call returns true with that error wrapped, and no cleanup is tried. *)
Theorem reconcile_GetMount_failure (sys : util.MountSystem) (Kind mountDir : string)
    (w w1 w2 : util.world sys) (getErr : error) :
  util.IsMountPoint sys mountDir w = ((true, None), w1) ->
  util.GetMount sys mountDir w1 = (Err getErr, w2) ->
  util.CheckAndCleanupMountPoint sys Kind mountDir (w, [])
    = ((true, Some (withMessage getErr (get_mount_msg mountDir))),
       (w2, [CallIsMountPoint mountDir; CallGetMount mountDir])).
Proof. intros Hp Hg. run_check. rewrite Hp; simpl. rewrite Hg. reflexivity. Qed.

Lemma reconcile_GetMount_failure_witness :
  util.CheckAndCleanupMountPoint
    (scripted (true, None) false None (Err no_such_dir))
    "nfs" "/var/lib/backups" (tt, [])
  = ((true, Some (withMessage no_such_dir "Failed to get mount for /var/lib/backups")),
     (tt, [CallIsMountPoint "/var/lib/backups"; CallGetMount "/var/lib/backups"])).
Proof.
  exact (reconcile_GetMount_failure
           (scripted (true, None) false None (Err no_such_dir))
           "nfs" "/var/lib/backups" tt tt tt no_such_dir eq_refl eq_refl).
Defined.

(** X9: in every run, each cleanup call is of the tier the mounter
    selects: [mount.CleanupMountWithForce] on [mountDir] with the 30 s
    timeout when the mounter can force-unmount, and never then the plain
    [mount.CleanupMountPoint]; the plain one otherwise, and never the
    forced one. *)
Theorem reconcile_cleanup_tier (sys : util.MountSystem) (Kind mountDir : string)
    (w : util.world sys) :
  Forall (cleanup_tier_ok sys mountDir)
         (snd (snd (util.CheckAndCleanupMountPoint sys Kind mountDir (w, [])))).
Proof.
  reconcile_cases sys;
    repeat (apply Forall_cons; split; [cbn; auto|]); apply Forall_nil_2.
Qed.

(** X10: one call tries at most two cleanups, and at most one when the
    probe returned no error. *)
Theorem reconcile_cleanup_bound (sys : util.MountSystem) (Kind mountDir : string)
    (w : util.world sys) :
  cleanup_calls (snd (snd (util.CheckAndCleanupMountPoint sys Kind mountDir (w, []))))
    <= match snd (fst (util.IsMountPoint sys mountDir w)) with
       | Some _ => 2
       | None => 1
       end.
Proof. reconcile_cases sys; unfold cleanup_calls; simpl; lia. Qed.

(** X11: when the probe reports "mounted", the live filesystem type does
    not contain the expected kind and the cleanup succeeds, the call
    returns (false, nil) after exactly one cleanup. *)
Theorem stale_mount_cleaned (sys : util.MountSystem) (Kind mountDir : string)
    (w w1 w2 : util.world sys) (mnt : util.Mount) :
  util.IsMountPoint sys mountDir w = ((true, None), w1) ->
  util.GetMount sys mountDir w1 = (Ok mnt, w2) ->
  Contains (util.FilesystemType mnt) Kind = false ->
  fst (cleanup_on sys mountDir w2) = None ->
  let out := util.CheckAndCleanupMountPoint sys Kind mountDir (w, []) in
  fst out = (false, None) /\
  fst (snd out) = snd (cleanup_on sys mountDir w2) /\
  cleanup_calls (snd (snd out)) = 1.
Proof.
  intros Hp Hg Hc Hf out. subst out.
  destruct (reconcile_stale sys Kind mountDir w w1 w2 mnt [] Hp Hg Hc)
    as (u & -> & Hu).
  rewrite Hf. cbn [fst snd app]. auto.
Qed.

Lemma stale_mount_cleaned_witness :
  fst (util.CheckAndCleanupMountPoint
         (scripted (true, None) true None (Ok nfs4))
         "cifs" "/var/lib/backups" (tt, [])) = (false, None).
Proof.
  exact (proj1 (stale_mount_cleaned
                  (scripted (true, None) true None (Ok nfs4))
                  "cifs" "/var/lib/backups" tt tt tt nfs4
                  eq_refl eq_refl eq_refl eq_refl)).
Defined.

(** ** Slices of strings *)

Lemma Filter_from (predicate : string -> bool) (elements filtered : list string) :
  fold_left (fun filtered elem => if predicate elem then filtered ++ [elem] else filtered)
            elements filtered
  = filtered ++ List.filter predicate elements.
Proof.
  revert filtered. induction elements as [|e es IH]; intros filtered; simpl.
  - rewrite app_nil_r. reflexivity.
  - rewrite IH. destruct (predicate e); [|reflexivity].
    rewrite <- app_assoc. reflexivity.
Qed.

(** X12: [Filter] keeps exactly the elements that satisfy the predicate,
    each as often as it occurs and in the order of the input. *)
Theorem Filter_keeps_matching (elements : list string) (predicate : string -> bool) :
  util.Filter elements predicate = List.filter predicate elements /\
  sublist (util.Filter elements predicate) elements /\
  (forall e, e ∈ util.Filter elements predicate <->
             e ∈ elements /\ predicate e = true).
Proof.
  assert (util.Filter elements predicate = List.filter predicate elements) as E
    by apply (Filter_from predicate elements []).
  rewrite E. split; [reflexivity|]. split.
  - clear E. induction elements as [|e es IH]; simpl; [constructor|].
    destruct (predicate e); [apply sublist_skip | apply sublist_cons]; exact IH.
  - intros e. rewrite !list_elem_of_In. apply List.filter_In.
Qed.

Lemma known_lookup (x : list string) (known : gmap string unit) (value : string) :
  is_Some (fold_left (fun known value => <[value := tt]> known) x known !! value)
  <-> value ∈ x \/ is_Some (known !! value).
Proof.
  revert known. induction x as [|v vs IH]; intros known; simpl.
  - rewrite elem_of_nil. tauto.
  - rewrite IH, elem_of_cons, lookup_insert_is_Some.
    destruct (decide (v = value)); intuition congruence.
Qed.

Lemma UnorderedEqual_spec (x y : list string) :
  util.UnorderedEqual x y = true <->
  length x = length y /\ (forall value, value ∈ y -> value ∈ x).
Proof.
  unfold util.UnorderedEqual.
  destruct (Nat.eqb_spec (length x) (length y)) as [El|Nl]; simpl.
  - rewrite forallb_forall. split.
    + intros H. split; [exact El|]. intros v Hv.
      apply list_elem_of_In, H, bool_decide_eq_true, known_lookup in Hv.
      destruct Hv as [Hv|[u Hu]]; [exact Hv|]. rewrite lookup_empty in Hu. discriminate.
    + intros [_ H] v Hv. apply bool_decide_eq_true, known_lookup. left.
      apply H, list_elem_of_In, Hv.
  - split; [discriminate | intros [El _]; contradiction].
Qed.

(** X13: [UnorderedEqual x y] holds exactly when the slices have the same
    length and every element of [y] occurs in [x]; how often an element
    occurs is not compared. *)
Theorem UnorderedEqual_meaning (x y : list string) :
  util.UnorderedEqual x y = true <->
  length x = length y /\ (forall value, value ∈ y -> value ∈ x).
Proof. apply UnorderedEqual_spec. Qed.

(** X14: slices that are permutations of each other are [UnorderedEqual]. *)
Theorem UnorderedEqual_Permutation (x y : list string) :
  x ≡ₚ y -> util.UnorderedEqual x y = true.
Proof.
  intros H. apply UnorderedEqual_spec. split.
  - apply Permutation_length, H.
  - intros v Hv. rewrite H. exact Hv.
Qed.

Lemma UnorderedEqual_Permutation_witness :
  util.UnorderedEqual ["vol-1"; "vol-2"; "vol-1"] ["vol-2"; "vol-1"; "vol-1"] = true.
Proof.
  apply UnorderedEqual_Permutation.
  apply (Permutation_swap "vol-2" "vol-1" ["vol-1"]).
Defined.

(** X15: when [y] has no duplicates, [UnorderedEqual x y] holds exactly
    when [x] is a permutation of [y]. *)
Theorem UnorderedEqual_NoDup (x y : list string) :
  NoDup y ->
  (util.UnorderedEqual x y = true <-> x ≡ₚ y).
Proof.
  intros Hnd. split.
  - intros H. apply UnorderedEqual_spec in H as [El Hin].
    symmetry. apply submseteq_length_Permutation.
    + apply NoDup_submseteq; assumption.
    + rewrite El. reflexivity.
  - intros H. apply UnorderedEqual_spec. split.
    + apply Permutation_length, H.
    + intros v Hv. rewrite H. exact Hv.
Qed.

Lemma UnorderedEqual_NoDup_witness :
  util.UnorderedEqual ["vol-1"; "vol-2"] ["vol-2"; "vol-1"] = true <->
  ["vol-1"; "vol-2"] ≡ₚ ["vol-2"; "vol-1"].
Proof.
  apply (UnorderedEqual_NoDup ["vol-1"; "vol-2"] ["vol-2"; "vol-1"]).
  apply (bool_decide_unpack _). vm_compute. exact I.
Defined.

(** X16: [UnorderedEqual] is not symmetric: a duplicate in the second
    slice goes unnoticed, one in the first does not. *)
Theorem UnorderedEqual_not_symmetric (a b : string) :
  a <> b ->
  util.UnorderedEqual [a; b] [a; a] = true /\
  util.UnorderedEqual [a; a] [a; b] = false.
Proof.
  intros Hab. split.
  - apply UnorderedEqual_spec. split; [reflexivity|].
    intros v. rewrite !elem_of_cons, elem_of_nil. tauto.
  - apply not_true_is_false. intros H.
    apply UnorderedEqual_spec in H as [_ H].
    specialize (H b). revert H. rewrite !elem_of_cons, elem_of_nil.
    intros H. destruct H as [E | [E | []]]; [tauto | | ]; congruence.
Qed.

Lemma UnorderedEqual_not_symmetric_witness :
  util.UnorderedEqual ["vol-1"; "vol-2"] ["vol-1"; "vol-1"] = true /\
  util.UnorderedEqual ["vol-1"; "vol-1"] ["vol-1"; "vol-2"] = false.
Proof. apply (UnorderedEqual_not_symmetric "vol-1" "vol-2"). discriminate. Defined.

(** ** Names *)

Lemma lang_Nothing_inv (s : list ascii) : lang Nothing s -> False.
Proof. inversion 1. Qed.

Lemma lang_Epsilon_inv (s : list ascii) : lang Epsilon s -> s = [].
Proof. inversion 1. reflexivity. Qed.

Lemma lang_Class_inv (p : ascii -> bool) (s : list ascii) :
  lang (Class p) s -> exists c, s = [c] /\ p c = true.
Proof. inversion 1; subst. eauto. Qed.

Lemma lang_Cat_inv (r1 r2 : regexp) (s : list ascii) :
  lang (Cat r1 r2) s -> exists s1 s2, s = s1 ++ s2 /\ lang r1 s1 /\ lang r2 s2.
Proof. inversion 1; subst. eauto. Qed.

Lemma lang_Alt_inv (r1 r2 : regexp) (s : list ascii) :
  lang (Alt r1 r2) s -> lang r1 s \/ lang r2 s.
Proof. inversion 1; subst; auto. Qed.

Lemma nullable_lang (r : regexp) : nullable r = true <-> lang r [].
Proof.
  induction r as [| |p|r1 IH1 r2 IH2|r1 IH1 r2 IH2|r IH]; simpl.
  - split; [discriminate | intros H; destruct (lang_Nothing_inv _ H)].
  - split; [constructor | reflexivity].
  - split; [discriminate|]. intros H.
    apply lang_Class_inv in H as (c & E & _). discriminate.
  - rewrite andb_true_iff, IH1, IH2. split.
    + intros [H1 H2]. apply (lang_Cat r1 r2 [] []); assumption.
    + intros H. apply lang_Cat_inv in H as (s1 & s2 & E & H1 & H2).
      symmetry in E. apply app_eq_nil in E as [-> ->]. split; assumption.
  - rewrite orb_true_iff, IH1, IH2. split.
    + intros [H|H]; [apply lang_Alt_l | apply lang_Alt_r]; exact H.
    + apply lang_Alt_inv.
  - split; [constructor | reflexivity].
Qed.

Lemma lang_Star_cons (r : regexp) (c : ascii) (s : list ascii) :
  lang (Star r) (c :: s) ->
  exists s1 s2, s = s1 ++ s2 /\ lang r (c :: s1) /\ lang (Star r) s2.
Proof.
  intros H. remember (Star r) as r' eqn:Er. remember (c :: s) as cs eqn:Es.
  revert r c s Er Es.
  induction H as [| | | | | |r0 s1 s2 H1 _ H2 IH2]; intros q a u Er Es;
    try discriminate.
  injection Er as ->. destruct s1 as [|c1 s1].
  - simpl in Es. apply (IH2 q a u eq_refl Es).
  - injection Es as -> <-. exists s1, s2. auto.
Qed.

Lemma lang_Cat_cons (r1 r2 : regexp) (c : ascii) (s : list ascii) :
  lang (Cat r1 r2) (c :: s) <->
  (exists s1 s2, s = s1 ++ s2 /\ lang r1 (c :: s1) /\ lang r2 s2) \/
  (lang r1 [] /\ lang r2 (c :: s)).
Proof.
  split.
  - intros H. apply lang_Cat_inv in H as (s1 & s2 & E & H1 & H2).
    destruct s1 as [|c1 s1]; simpl in E.
    + right. subst. auto.
    + injection E as -> ->. left. eauto.
  - intros [(s1 & s2 & -> & H1 & H2) | [H1 H2]].
    + apply (lang_Cat r1 r2 (c :: s1) s2); assumption.
    + apply (lang_Cat r1 r2 [] (c :: s)); assumption.
Qed.

Lemma deriv_lang (r : regexp) (c : ascii) (s : list ascii) :
  lang (deriv c r) s <-> lang r (c :: s).
Proof.
  revert s. induction r as [| |p|r1 IH1 r2 IH2|r1 IH1 r2 IH2|r IH]; intros s; simpl.
  - split; intros H; [destruct (lang_Nothing_inv _ H) | inversion H].
  - split; intros H; [destruct (lang_Nothing_inv _ H) | inversion H].
  - destruct (p c) eqn:Ep; split; intros H.
    + apply lang_Epsilon_inv in H as ->. constructor. exact Ep.
    + apply lang_Class_inv in H as (c' & [= <- ->] & _). constructor.
    + destruct (lang_Nothing_inv _ H).
    + apply lang_Class_inv in H as (c' & [= <- ->] & Hc). congruence.
  - assert (lang (Cat (deriv c r1) r2) s <->
            exists s1 s2, s = s1 ++ s2 /\ lang r1 (c :: s1) /\ lang r2 s2) as Hcat.
    { split.
      - intros H. apply lang_Cat_inv in H as (s1 & s2 & -> & H1 & H2).
        exists s1, s2. rewrite <- IH1. auto.
      - intros (s1 & s2 & -> & H1 & H2). constructor; [apply IH1|]; assumption. }
    rewrite lang_Cat_cons. destruct (nullable r1) eqn:En.
    + apply nullable_lang in En. split.
      * intros H. apply lang_Alt_inv in H as [H|H];
          [left; apply Hcat, H | right; rewrite <- IH2; auto].
      * intros [H|[_ H]]; [apply lang_Alt_l, Hcat, H | apply lang_Alt_r, IH2, H].
    + rewrite Hcat. split; [auto|]. intros [H|[H _]]; [exact H|].
      apply nullable_lang in H. congruence.
  - split; intros H.
    + apply lang_Alt_inv in H as [H|H];
        [apply lang_Alt_l, IH1 | apply lang_Alt_r, IH2]; exact H.
    + apply lang_Alt_inv in H as [H|H];
        [apply lang_Alt_l, IH1 | apply lang_Alt_r, IH2]; exact H.
  - split; intros H.
    + apply lang_Cat_inv in H as (s1 & s2 & -> & H1 & H2).
      apply (lang_Star_app r (c :: s1) s2); [apply IH|]; assumption.
    + apply lang_Star_cons in H as (s1 & s2 & -> & H1 & H2).
      constructor; [apply IH|]; assumption.
Qed.

Lemma MatchString_lang (r : regexp) (s : string) :
  MatchString r s = true <-> lang r (list_ascii_of_string s).
Proof.
  revert r. induction s as [|c s IH]; intros r; simpl.
  - apply nullable_lang.
  - rewrite IH. apply deriv_lang.
Qed.

Lemma lang_Star_Class (p : ascii -> bool) (s : list ascii) :
  lang (Star (Class p)) s <-> forallb p s = true.
Proof.
  split.
  - intros H. remember (Star (Class p)) as r eqn:Er.
    induction H as [| | | | | |r0 s1 s2 H1 _ H2 IH2]; try discriminate; [reflexivity|].
    injection Er as ->. apply lang_Class_inv in H1 as (c & -> & Hc). simpl.
    rewrite IH2 by reflexivity. apply andb_true_iff. auto.
  - induction s as [|c s IH]; simpl; [constructor|].
    rewrite andb_true_iff. intros [Hc Hs].
    apply (lang_Star_app (Class p) [c] s); [constructor; exact Hc | apply IH, Hs].
Qed.

Lemma ValidateName_shape (name : string) :
  util.ValidateName name = true <->
  exists c d rest,
    list_ascii_of_string name = c :: d :: rest /\
    util.alnum c = true /\ util.name_char d = true /\
    forallb util.name_char rest = true.
Proof.
  unfold util.ValidateName, Plus. rewrite MatchString_lang. split.
  - intros H. apply lang_Cat_inv in H as (s1 & s2 & -> & H1 & H2).
    apply lang_Class_inv in H1 as (c & -> & Hc).
    apply lang_Cat_inv in H2 as (s3 & s4 & -> & H3 & H4).
    apply lang_Class_inv in H3 as (d & -> & Hd).
    apply lang_Star_Class in H4. simpl. eauto 10.
  - intros (c & d & rest & -> & Hc & Hd & Hr).
    apply (lang_Cat _ _ [c] (d :: rest)); [constructor; exact Hc|].
    apply (lang_Cat _ _ [d] rest); [constructor; exact Hd|].
    apply lang_Star_Class, Hr.
Qed.

(** X17: [ValidateName] accepts exactly the names of two or more
    characters that start with a letter or digit and go on with letters,
    digits, '_', '.' and '-' only; so the empty name and every
    one-character name are rejected. *)
Theorem ValidateName_accepts (name : string) :
  util.ValidateName name = true <->
  exists c rest,
    name = String c rest /\ util.alnum c = true /\ rest <> "" /\
    forallb util.name_char (list_ascii_of_string rest) = true.
Proof.
  rewrite ValidateName_shape. split.
  - intros (c & d & rest & E & Hc & Hd & Hr).
    destruct name as [|c' [|d' rest']]; simpl in E; try discriminate.
    injection E as -> -> <-. exists c, (String d rest').
    simpl. rewrite Hd, Hr. repeat split; [exact Hc | discriminate].
  - intros (c & rest & -> & Hc & Hne & Hr).
    destruct rest as [|d rest]; [contradiction|].
    simpl in Hr. apply andb_true_iff in Hr as [Hd Hr].
    exists c, d, (list_ascii_of_string rest). simpl. auto.
Qed.

Lemma name_char_all (name : string) :
  util.ValidateName name = true ->
  forallb util.name_char (list_ascii_of_string name) = true.
Proof.
  intros H. apply ValidateName_shape in H as (c & d & rest & -> & Hc & Hd & Hr).
  simpl. rewrite Hd, Hr, !andb_true_r.
  unfold util.name_char. unfold util.alnum in Hc. rewrite Hc. reflexivity.
Qed.

Lemma Contains_char (s : string) (c : ascii) :
  Contains s (String c "") = true -> c ∈ list_ascii_of_string s.
Proof.
  induction s as [|d s IH]; cbn [Contains]; rewrite orb_true_iff; intros [H|H].
  - discriminate.
  - discriminate.
  - apply prefix_append in H as [b Hb]. rewrite append_String in Hb.
    injection Hb as -> _. simpl. apply list_elem_of_here.
  - simpl. apply list_elem_of_further, IH, H.
Qed.

(** X18: a valid name has at least two characters and holds no character
    outside [a-zA-Z0-9_.-]: no '/', no space, no newline. *)
Theorem ValidateName_safe (name : string) (c : ascii) :
  util.ValidateName name = true ->
  2 <= String.length name /\
  (util.name_char c = false -> Contains name (String c "") = false).
Proof.
  intros H. split.
  - apply ValidateName_shape in H as (a & d & rest & E & _).
    destruct name as [|a' [|d' rest']]; simpl in E; try discriminate. simpl. lia.
  - intros Hc. apply not_true_is_false. intros Hin.
    apply Contains_char in Hin. apply name_char_all in H.
    rewrite forallb_forall in H. apply list_elem_of_In, H in Hin. congruence.
Qed.

Lemma ValidateName_safe_witness :
  2 <= String.length "backup_vol-1.cfg" /\
  Contains "backup_vol-1.cfg" "/" = false.
Proof.
  destruct (ValidateName_safe "backup_vol-1.cfg" "/" eq_refl) as [H1 H2].
  split; [exact H1 | exact (H2 eq_refl)].
Defined.

(** ** Strings: prefixes and suffixes *)

Lemma length_append (a b : string) :
  String.length (a +:+ b) = String.length a + String.length b.
Proof. induction a as [|c a IH]; [reflexivity|]. rewrite append_String. simpl. lia. Qed.

Lemma string_drop_append (a b : string) : string_drop (String.length a) (a +:+ b) = b.
Proof. induction a as [|c a IH]; [destruct b; reflexivity | exact IH]. Qed.

Lemma substring_0_append (a b : string) : substring 0 (String.length a) (a +:+ b) = a.
Proof.
  induction a as [|c a IH]; [destruct b; reflexivity|].
  rewrite append_String. simpl. rewrite IH. reflexivity.
Qed.

Lemma substring_0_string_drop (n : nat) (s : string) :
  substring 0 n s +:+ string_drop n s = s.
Proof.
  revert s. induction n as [|n IH]; intros [|c s]; simpl; try reflexivity.
  rewrite append_String, IH. reflexivity.
Qed.

Lemma HasSuffix_spec (s suffix : string) :
  HasSuffix s suffix = true <-> exists a, s = a +:+ suffix.
Proof.
  unfold HasSuffix. rewrite andb_true_iff, Nat.leb_le, String.eqb_eq. split.
  - intros [_ H]. exists (substring 0 (String.length s - String.length suffix) s).
    pose proof (substring_0_string_drop (String.length s - String.length suffix) s) as E.
    rewrite H in E. symmetry. exact E.
  - intros [a ->]. rewrite length_append. split; [lia|].
    replace (String.length a + String.length suffix - String.length suffix)
      with (String.length a) by lia.
    apply string_drop_append.
Qed.

Lemma TrimPrefix_append (p b : string) : TrimPrefix (p +:+ b) p = b.
Proof.
  unfold TrimPrefix, HasPrefix. rewrite prefix_head. apply string_drop_append.
Qed.

Lemma TrimSuffix_append (a suffix : string) : TrimSuffix (a +:+ suffix) suffix = a.
Proof.
  unfold TrimSuffix.
  assert (HasSuffix (a +:+ suffix) suffix = true) as -> by (apply HasSuffix_spec; eauto).
  rewrite length_append.
  replace (String.length a + String.length suffix - String.length suffix)
    with (String.length a) by lia.
  apply substring_0_append.
Qed.

Lemma ExtractNames_from (prefix suffix : string) (names result logged : list string) :
  fst (fold_left
         (fun '(result, logged) f =>
            let f := TrimLeft f "/" in
            if negb (HasPrefix f prefix) || negb (HasSuffix f suffix) then (result, logged)
            else
              let f := TrimPrefix f prefix in
              let f := TrimSuffix f suffix in
              if negb (util.ValidateName f) then
                (result,
                 logged ++ ["Invalid name " +:+ f
                            +:+ " was processed to extract name with prefix "
                            +:+ prefix +:+ " suffix " +:+ suffix])
              else (result ++ [f], logged))
         names (result, logged))
  = result ++ omap (extract_name prefix suffix) names.
Proof.
  revert result logged. induction names as [|name names IH]; intros result logged.
  - simpl. rewrite app_nil_r. reflexivity.
  - cbn [fold_left].
    change (omap (extract_name prefix suffix) (name :: names))
      with (match extract_name prefix suffix name with
            | Some y => y :: omap (extract_name prefix suffix) names
            | None => omap (extract_name prefix suffix) names
            end).
    unfold extract_name at 1. cbn zeta.
    destruct (HasPrefix (TrimLeft name "/") prefix); cbn [negb orb andb];
      [destruct (HasSuffix (TrimLeft name "/") suffix); cbn [negb orb andb]|];
      [destruct (util.ValidateName _); cbn [negb]| |]; rewrite IH;
      [rewrite <- app_assoc|..]; reflexivity.
Qed.

Lemma ExtractNames_omap (names : list string) (prefix suffix : string) :
  fst (util.ExtractNames names prefix suffix) = omap (extract_name prefix suffix) names.
Proof. apply (ExtractNames_from prefix suffix names [] []). Qed.

(** X19: every name [ExtractNames] returns is valid and comes from an
    input that, once its leading slashes are dropped, is the prefix, the
    name and the suffix; or, when prefix and suffix overlap in the input,
    the prefix and the name with the suffix left in place. *)
Theorem ExtractNames_sound (names : list string) (prefix suffix r : string) :
  r ∈ fst (util.ExtractNames names prefix suffix) ->
  util.ValidateName r = true /\
  exists name,
    name ∈ names /\
    (TrimLeft name "/" = prefix +:+ r +:+ suffix \/
     (TrimLeft name "/" = prefix +:+ r /\
      HasSuffix (prefix +:+ r) suffix = true /\ HasSuffix r suffix = false)).
Proof.
  rewrite ExtractNames_omap, list_elem_of_omap.
  intros (name & Hin & He). unfold extract_name in He.
  destruct (HasPrefix (TrimLeft name "/") prefix) eqn:Hp; [|discriminate].
  destruct (HasSuffix (TrimLeft name "/") suffix) eqn:Hs; [|discriminate].
  cbn [andb] in He.
  destruct (util.ValidateName _) eqn:Hv; [|discriminate]. injection He as Hr.
  apply prefix_append in Hp as [b Hb]. rewrite Hb in Hr, Hs.
  rewrite TrimPrefix_append in Hr. rewrite Hb, TrimPrefix_append, Hr in Hv.
  split; [exact Hv|]. exists name. split; [exact Hin|]. rewrite Hb.
  destruct (HasSuffix b suffix) eqn:Hbs.
  - left. apply HasSuffix_spec in Hbs as [a ->].
    rewrite TrimSuffix_append in Hr. subst a. reflexivity.
  - right. unfold TrimSuffix in Hr. rewrite Hbs in Hr. subst b. auto.
Qed.

Lemma ExtractNames_sound_witness :
  util.ValidateName "vol-1" = true /\
  exists name,
    name ∈ ["/backup_vol-1.cfg"; "volume.cfg"] /\
    (TrimLeft name "/" = "backup_" +:+ "vol-1" +:+ ".cfg" \/
     (TrimLeft name "/" = "backup_" +:+ "vol-1" /\
      HasSuffix ("backup_" +:+ "vol-1") ".cfg" = true /\ HasSuffix "vol-1" ".cfg" = false)).
Proof.
  apply (ExtractNames_sound ["/backup_vol-1.cfg"; "volume.cfg"] "backup_" ".cfg" "vol-1").
  vm_compute. apply list_elem_of_here.
Defined.

(** X20: every input that, once its leading slashes are dropped, is the
    prefix, a valid name and the suffix contributes that name. *)
Theorem ExtractNames_complete (names : list string) (prefix suffix name r : string) :
  name ∈ names ->
  TrimLeft name "/" = prefix +:+ r +:+ suffix ->
  util.ValidateName r = true ->
  r ∈ fst (util.ExtractNames names prefix suffix).
Proof.
  intros Hin Hf Hv. rewrite ExtractNames_omap, list_elem_of_omap.
  exists name. split; [exact Hin|]. unfold extract_name. rewrite Hf.
  unfold HasPrefix. rewrite prefix_head.
  assert (HasSuffix (prefix +:+ r +:+ suffix) suffix = true) as ->.
  { apply HasSuffix_spec. exists (prefix +:+ r). symmetry. apply append_assoc. }
  cbn [andb]. rewrite TrimPrefix_append, TrimSuffix_append, Hv. reflexivity.
Qed.

Lemma ExtractNames_complete_witness :
  "vol-1" ∈ fst (util.ExtractNames ["volume.cfg"; "//backup_vol-1.cfg"] "backup_" ".cfg").
Proof.
  apply (ExtractNames_complete _ "backup_" ".cfg" "//backup_vol-1.cfg" "vol-1");
    [apply list_elem_of_further, list_elem_of_here | reflexivity | reflexivity].
Defined.

Example ExtractNames_overlap :
  util.ExtractNames ["ababc"] "ab" "babc" = (["abc"], []).
Proof. reflexivity. Qed.

(** ** Strings: occurrences and replacing *)

Lemma prefix_empty (s : string) : String.prefix "" s = true.
Proof. destruct s; reflexivity. Qed.

Lemma append_empty_r (s : string) : s +:+ "" = s.
Proof. induction s as [|c s IH]; [reflexivity|]. rewrite append_String, IH. reflexivity. Qed.

(** A separator that does not occur in [old] ends every match of [old]. *)
Lemma prefix_sep (old x y : string) (sep : ascii) :
  sep ∉ list_ascii_of_string old ->
  String.prefix old (x +:+ String sep y) = String.prefix old x.
Proof.
  revert x. induction old as [|o old IH]; intros x Hsep.
  - rewrite !prefix_empty. reflexivity.
  - simpl in Hsep. apply not_elem_of_cons in Hsep as [Hne Hsep].
    destruct x as [|c x].
    + rewrite append_empty. simpl.
      destruct (ascii_dec o sep) as [E|_]; [congruence | reflexivity].
    + rewrite append_String. simpl.
      destruct (ascii_dec o c); [apply IH, Hsep | reflexivity].
Qed.

Lemma Contains_sep (old x y : string) (sep : ascii) :
  sep ∉ list_ascii_of_string old ->
  Contains (x +:+ String sep y) old = Contains x old || Contains y old.
Proof.
  intros Hsep. induction x as [|c x IH].
  - rewrite append_empty. cbn [Contains].
    rewrite <- (append_empty (String sep y)), (prefix_sep old "" y sep Hsep).
    rewrite orb_false_r. reflexivity.
  - rewrite append_String. cbn [Contains]. rewrite IH.
    rewrite <- append_String, (prefix_sep old (String c x) y sep Hsep).
    rewrite orb_assoc. reflexivity.
Qed.

Lemma Contains_suffix (a1 a2 old : string) :
  Contains a2 old = true -> Contains (a1 +:+ a2) old = true.
Proof.
  intros H. apply Contains_spec in H as (x & y & ->). apply Contains_spec.
  exists (a1 +:+ x), y. rewrite append_assoc. reflexivity.
Qed.

Lemma Contains_prefix_true (s old : string) :
  String.prefix old s = true -> Contains s old = true.
Proof. intros H. destruct s; cbn [Contains]; rewrite H; reflexivity. Qed.

Lemma Contains_tail (o : ascii) (tl s : string) :
  Contains s (String o tl) = true -> Contains s tl = true.
Proof.
  intros H. apply Contains_spec in H as (x & y & ->). apply Contains_spec.
  exists (x +:+ String o ""), y. rewrite append_assoc. reflexivity.
Qed.

(** With the limit used up, [Replace_from] only drops what is left of the
    last match. *)
Lemma Replace_from_done (old new : string) (skip : nat) (s : string) :
  Replace_from old new skip 0 s = string_drop skip s.
Proof.
  revert skip. induction s as [|c s IH]; intros [|k]; simpl; try reflexivity.
  apply IH.
Qed.

(** [Replace] copies a stretch in which no match starts. *)
Lemma Replace_skip (old new a rest : string) (n : Z) :
  (forall a1 a2, a = a1 +:+ a2 -> a2 <> "" -> String.prefix old (a2 +:+ rest) = false) ->
  Replace_from old new 0 n (a +:+ rest) = a +:+ Replace_from old new 0 n rest.
Proof.
  revert n. induction a as [|c a IH]; intros n H; [reflexivity|].
  rewrite !append_String. cbn [Replace_from].
  destruct (n =? 0)%Z eqn:En.
  - apply Z.eqb_eq in En as ->. f_equal.
    rewrite (Replace_from_done old new 0 rest). reflexivity.
  - rewrite <- append_String, (H "" (String c a) eq_refl) by discriminate.
    f_equal. apply IH.
    intros a1 a2 -> Hne. apply (H (String c a1) a2 eq_refl Hne).
Qed.

Lemma Replace_absent (s old new : string) (n : Z) :
  Contains s old = false -> Replace s old new n = s.
Proof.
  intros H. unfold Replace. rewrite <- (append_empty_r s) at 1.
  rewrite Replace_skip; [apply append_empty_r|].
  intros a1 a2 -> Hne. rewrite append_empty_r.
  apply not_true_is_false. intros Hp.
  apply Contains_prefix_true, (Contains_suffix a1) in Hp. congruence.
Qed.

(** The first match is replaced where [old] starts with a character that
    does not occur in it again and [a] holds no match. *)
Lemma Replace_first (o : ascii) (tl new a b : string) :
  o ∉ list_ascii_of_string tl ->
  Contains a (String o tl) = false ->
  Replace (a +:+ String o tl +:+ b) (String o tl) new 1 = a +:+ new +:+ b.
Proof.
  intros Ho Ha. unfold Replace. rewrite Replace_skip.
  - f_equal. rewrite append_String. cbn [Replace_from Z.eqb].
    rewrite <- append_String, prefix_head. f_equal. cbn [String.length].
    replace (S (String.length tl) - 1) with (String.length tl) by lia.
    change (1 - 1)%Z with 0%Z. rewrite Replace_from_done.
    apply string_drop_append.
  - intros a1 a2 -> Hne. destruct a2 as [|c a2]; [contradiction|].
    apply not_true_is_false. intros Hp.
    assert (String.prefix (String o tl) (String c a2) = true) as Hp'.
    { rewrite !append_String in Hp. simpl in Hp. simpl.
      destruct (ascii_dec o c); [|discriminate].
      rewrite (prefix_sep tl a2 (tl +:+ b) o Ho) in Hp. exact Hp. }
    apply Contains_prefix_true, (Contains_suffix a1) in Hp'. congruence.
Qed.

(** [Replace] walks past a separator that does not occur in [old]. *)
Lemma Replace_past_sep (old new a b : string) (sep : ascii) (n : Z) :
  old <> "" ->
  sep ∉ list_ascii_of_string old ->
  Contains a old = false ->
  Replace (a +:+ String sep b) old new n = a +:+ String sep (Replace b old new n).
Proof.
  intros Hne Hsep Ha. unfold Replace. rewrite Replace_skip.
  - f_equal. cbn [Replace_from]. destruct (n =? 0)%Z eqn:En.
    + apply Z.eqb_eq in En as ->. rewrite Replace_from_done. reflexivity.
    + rewrite <- (append_empty (String sep b)), (prefix_sep old "" b sep Hsep).
      destruct old; [contradiction | reflexivity].
  - intros a1 a2 -> _. rewrite (prefix_sep old a2 b sep Hsep).
    apply not_true_is_false. intros Hp.
    apply Contains_prefix_true, (Contains_suffix a1) in Hp. congruence.
Qed.

(** ** URLs *)

Lemma no_escaped_ampersand (s : string) :
  Contains s "u0026" = false -> Contains s "\u0026" = false.
Proof.
  intros H. apply not_true_is_false. intros Hc.
  apply Contains_tail in Hc. congruence.
Qed.

(** X21: a URL in which "u0026" does not occur is returned as it is. *)
Theorem UnescapeURL_unchanged (url : string) :
  Contains url "u0026" = false ->
  util.UnescapeURL url = url.
Proof.
  intros H. unfold util.UnescapeURL.
  rewrite (Replace_absent url "\u0026" "&" 1) by apply no_escaped_ampersand, H.
  apply Replace_absent, H.
Qed.

Lemma UnescapeURL_unchanged_witness :
  util.UnescapeURL "nfs://10.0.0.7:/export/backups" = "nfs://10.0.0.7:/export/backups".
Proof. apply UnescapeURL_unchanged. reflexivity. Defined.

(** X22: the first escaped ampersand, backslash included, becomes "&";
    after it only the first further "u0026" is replaced, so a second
    escaped ampersand keeps its backslash. *)
Theorem UnescapeURL_escaped (a b : string) :
  Contains a "u0026" = false ->
  util.UnescapeURL (a +:+ "\u0026" +:+ b) = a +:+ "&" +:+ Replace b "u0026" "&" 1.
Proof.
  intros Ha. unfold util.UnescapeURL.
  rewrite (Replace_first "\" "u0026" "&" a b);
    [| decide_closed | apply no_escaped_ampersand, Ha].
  apply (Replace_past_sep "u0026" "&" a b "&" 1); [discriminate | decide_closed | exact Ha].
Qed.

Lemma UnescapeURL_escaped_witness :
  util.UnescapeURL "s3://backups@us-east-1/?a=1\u0026b=2\u0026c=3"
    = "s3://backups@us-east-1/?a=1&b=2\&c=3".
Proof.
  apply (UnescapeURL_escaped "s3://backups@us-east-1/?a=1" "b=2\u0026c=3").
  reflexivity.
Defined.

(** X23: in a URL without an escaped ampersand, the first "u0026" alone
    becomes "&". *)
Theorem UnescapeURL_bare (a b : string) :
  Contains a "u0026" = false ->
  Contains (a +:+ "u0026" +:+ b) "\u0026" = false ->
  util.UnescapeURL (a +:+ "u0026" +:+ b) = a +:+ "&" +:+ b.
Proof.
  intros Ha Hn. unfold util.UnescapeURL.
  rewrite (Replace_absent _ "\u0026" "&" 1) by exact Hn.
  apply (Replace_first "u" "0026" "&" a b); [decide_closed | exact Ha].
Qed.

Lemma UnescapeURL_bare_witness :
  util.UnescapeURL "s3://backups@us-east-1/?a=1u0026b=2u0026c=3"
    = "s3://backups@us-east-1/?a=1&b=2u0026c=3".
Proof.
  apply (UnescapeURL_bare "s3://backups@us-east-1/?a=1" "b=2u0026c=3"); reflexivity.
Defined.

(** ** Generated names *)

Lemma Replace_from_unlimited (old new : string) (skip : nat) (n m : Z) (s : string) :
  (n < 0)%Z -> (m < 0)%Z ->
  Replace_from old new skip n s = Replace_from old new skip m s.
Proof.
  revert skip n m. induction s as [|c s IH]; intros skip n m Hn Hm; [reflexivity|].
  cbn [Replace_from]. destruct skip as [|k]; [|apply IH; assumption].
  destruct (Z.eqb_spec n 0) as [->|_]; [lia|].
  destruct (Z.eqb_spec m 0) as [->|_]; [lia|].
  destruct (String.prefix old (String c s)); f_equal; apply IH; lia.
Qed.

Lemma Replace_all_append (c : ascii) (new x y : string) (n : Z) :
  (n < 0)%Z ->
  Replace_from (String c "") new 0 n (x +:+ y)
  = Replace_from (String c "") new 0 n x +:+ Replace_from (String c "") new 0 n y.
Proof.
  revert n. induction x as [|d x IH]; intros n Hn; [reflexivity|].
  rewrite append_String. cbn [Replace_from String.length Nat.sub].
  destruct (Z.eqb_spec n 0) as [->|_]; [lia|].
  destruct (String.prefix (String c "") (String d (x +:+ y))) eqn:Hp.
  - assert (String.prefix (String c "") (String d x) = true) as ->.
    { simpl in Hp |- *. destruct (ascii_dec c d); [apply prefix_empty | discriminate]. }
    rewrite IH by lia. rewrite append_assoc. do 2 f_equal.
    apply Replace_from_unlimited; lia.
  - assert (String.prefix (String c "") (String d x) = false) as ->.
    { simpl in Hp |- *. destruct (ascii_dec c d); [|reflexivity].
      rewrite prefix_empty in Hp. discriminate. }
    rewrite IH by lia. reflexivity.
Qed.

Lemma Replace_dashes (g rest : string) :
  Contains g "-" = false ->
  Replace (g +:+ "-" +:+ rest) "-" "" (-1) = g +:+ Replace rest "-" "" (-1).
Proof.
  intros Hg. unfold Replace.
  rewrite Replace_all_append by lia.
  change (Replace_from "-" "" 0 (-1) g) with (Replace g "-" "" (-1)).
  rewrite Replace_absent by exact Hg. f_equal.
  rewrite append_String, append_empty. cbn [Replace_from Z.eqb String.prefix].
  destruct (ascii_dec "-" "-"); [|congruence].
  rewrite prefix_empty, append_empty. cbn [String.length Nat.sub].
  apply Replace_from_unlimited; lia.
Qed.

(** X24: for a UUID in its textual form, five dash-free groups of which
    the first three have 8, 4 and 4 characters, [GenerateName] returns the
    prefix, a dash and these three groups: 17 characters after the prefix,
    and the slice [[:16]] is in range. *)
Theorem GenerateName_shape (prefix g1 g2 g3 g4 g5 : string) :
  String.length g1 = 8 -> String.length g2 = 4 -> String.length g3 = 4 ->
  Contains g1 "-" = false -> Contains g2 "-" = false -> Contains g3 "-" = false ->
  Contains g4 "-" = false -> Contains g5 "-" = false ->
  util.GenerateName (uuid_text g1 g2 g3 g4 g5) prefix
    = prefix +:+ "-" +:+ g1 +:+ g2 +:+ g3 /\
  String.length (util.GenerateName (uuid_text g1 g2 g3 g4 g5) prefix)
    = String.length prefix + 17 /\
  16 <= String.length (Replace (uuid_text g1 g2 g3 g4 g5) "-" "" (-1)).
Proof.
  intros L1 L2 L3 H1 H2 H3 H4 H5.
  assert (Replace (uuid_text g1 g2 g3 g4 g5) "-" "" (-1)
          = (g1 +:+ g2 +:+ g3) +:+ g4 +:+ g5) as E.
  { unfold uuid_text. rewrite !Replace_dashes by assumption.
    rewrite (Replace_absent g5) by exact H5. rewrite !append_assoc. reflexivity. }
  unfold util.GenerateName, util.NewUUID, util.slice_to. rewrite E.
  replace 16 with (String.length (g1 +:+ g2 +:+ g3))
    by (rewrite !length_append; lia).
  rewrite substring_0_append. split; [reflexivity|].
  rewrite !length_append. simpl. lia.
Qed.

Lemma GenerateName_shape_witness :
  util.GenerateName "123e4567-e89b-12d3-a456-426614174000" "backup"
    = "backup-123e4567e89b12d3".
Proof.
  exact (proj1 (GenerateName_shape "backup" "123e4567" "e89b" "12d3" "a456" "426614174000"
                  eq_refl eq_refl eq_refl eq_refl eq_refl eq_refl eq_refl eq_refl)).
Defined.

(** ** The mount table *)

Lemma prefix_String (a b : ascii) (p s : string) :
  String.prefix (String a p) (String b s)
  = if ascii_dec a b then String.prefix p s else false.
Proof. reflexivity. Qed.

Lemma existsb_lines (pat cur s : string) :
  "010"%char ∉ list_ascii_of_string pat ->
  existsb (fun line => Contains line pat) (Split_from (String "010" "") 0 cur s)
  = Contains (cur +:+ s) pat.
Proof.
  intros Hnl. revert cur. induction s as [|c s IH]; intros cur.
  - simpl. rewrite append_empty_r, orb_false_r. reflexivity.
  - cbn [Split_from]. rewrite prefix_String.
    destruct (ascii_dec "010" c) as [<-|Hne].
    + rewrite prefix_empty. cbn [existsb String.length Nat.sub].
      rewrite (IH ""), append_empty. symmetry. apply Contains_sep, Hnl.
    + rewrite IH, append_assoc. reflexivity.
Qed.

(** X25: for a mount point without a newline, [IsMounted] is a substring
    test on the whole output of "mount": it holds exactly when the command
    succeeded and its output contains the mount point between two spaces. *)
Theorem IsMounted_substring
    (spawn : Z -> string -> list string -> util.Observation) (mountPoint : string) :
  "010"%char ∉ list_ascii_of_string mountPoint ->
  util.IsMounted spawn mountPoint
  = match util.Execute spawn "mount" [] with
    | (output, None) => Contains output (" " +:+ mountPoint +:+ " ")
    | (_, Some _) => false
    end.
Proof.
  intros Hnl. unfold util.IsMounted.
  destruct (util.Execute spawn "mount" []) as [out [e|]]; [reflexivity|].
  unfold Split, util.newline. change (ascii_of_nat 10) with "010"%char.
  rewrite existsb_lines; [rewrite append_empty; reflexivity|].
  rewrite append_String, append_empty. simpl.
  rewrite not_elem_of_cons. split; [discriminate|].
  intros Hin. apply Hnl. clear Hnl.
  induction mountPoint as [|c m IH]; simpl in *.
  - apply list_elem_of_singleton in Hin. discriminate.
  - apply elem_of_cons in Hin as [->|Hin];
      [apply list_elem_of_here | apply list_elem_of_further, IH, Hin].
Qed.

Lemma IsMounted_substring_witness :
  util.IsMounted spawn_mount_table "/var/lib/backups" = true.
Proof.
  rewrite (IsMounted_substring spawn_mount_table "/var/lib/backups")
    by decide_closed.
  reflexivity.
Defined.

(** ** Command executor and file checksum *)

(** X26: [execute] returns a nil error exactly when [select] took [done]
    and the command returned no error; it then returns the whole output
    of the command. *)
Theorem execute_success (spawn : Z -> string -> list string -> util.Observation)
    (ctx : Z) (binary : string) (args : list string) :
  (snd (util.execute spawn ctx binary args) = None <->
   util.selected (spawn ctx binary args) = util.caseDone /\
   util.err (spawn ctx binary args) = None) /\
  (snd (util.execute spawn ctx binary args) = None ->
   fst (util.execute spawn ctx binary args)
     = string_of_list_byte (util.output (spawn ctx binary args))).
Proof.
  unfold util.execute.
  destruct (util.selected _); [destruct (util.err _)|]; simpl;
    (split; [split; [try discriminate; auto | intros [? ?]; congruence]
            | try discriminate; auto]).
Qed.

(** X27: [GetFileChecksum] returns either an empty string with the error
    of opening or of reading the file, or, with a nil error, the SHA-256
    of the whole content as 64 lowercase hexadecimal characters. *)
Theorem GetFileChecksum_outcomes (os_Open : string -> ext Reader)
    (sha256_Sum : list byte -> vec byte 32) (filePath : string) :
  match snd (util.GetFileChecksum os_Open sha256_Sum filePath) with
  | Some e =>
      fst (util.GetFileChecksum os_Open sha256_Sum filePath) = "" /\
      exists msg,
        e = External msg /\
        (os_Open filePath = Raise msg \/
         exists f, os_Open filePath = Ret f /\ failure f = Some msg)
  | None =>
      exists f,
        os_Open filePath = Ret f /\ failure f = None /\
        fst (util.GetFileChecksum os_Open sha256_Sum filePath)
          = EncodeToString (vec_to_list (sha256_Sum (content f))) /\
        String.length (fst (util.GetFileChecksum os_Open sha256_Sum filePath)) = 64 /\
        Forall (fun c => is_lower_hex c = true)
               (list_ascii_of_string
                  (fst (util.GetFileChecksum os_Open sha256_Sum filePath)))
  end.
Proof.
  unfold util.GetFileChecksum, io_ReadAll.
  destruct (os_Open filePath) as [f|msg]; [destruct (failure f) as [msg|] eqn:Hf|];
    cbn [fst snd].
  - split; [reflexivity|]. exists msg. split; [reflexivity|]. right. eauto.
  - exists f. repeat split; [exact Hf | | apply EncodeToString_lower_hex].
    rewrite EncodeToString_length, length_vec_to_list. reflexivity.
  - split; [reflexivity|]. exists msg. auto.
Qed.

Example GetFileChecksum_missing :
  util.GetFileChecksum (one_file "/backups/volume.cfg" (bytes_of "{}")) first32
    "/backups/other.cfg"
  = ("", Some (External "open /backups/other.cfg: no such file or directory")).
Proof. reflexivity. Qed.
